(** * limdu: utils/trainAndTest.js

    A shallow embedding of the evaluation harness [utils/trainAndTest.js]
    (label normalisation, [testLite], [test], [compare], [trainAndTest],
    [trainAndCompare]) together with the properties its specification
    states about it.

    Layout:
    - [JS]: the fragment of JavaScript the module relies on (values,
      the array heap, truthiness, [JSON.stringify], [ToString],
      [Array.prototype.sort], underscore's [isEqual]);
    - [Eff]: the effects of the module (heap of arrays, console,
      exceptions) as a state-and-error monad;
    - [TrainAndTest]: the functions of the source file, one definition
      per source function, and the theorems. *)

From Stdlib Require Import ZArith String Ascii List.
From stdpp Require Import base option list gmap strings sorting pretty.

Set Warnings "-register-all".

Local Open Scope string_scope.
Local Open Scope list_scope.

(* ===================================================================== *)
(** * The JavaScript fragment *)
(* ===================================================================== *)

Module JS.

(** Primitive values.  A string is a sequence of code units below 256
    (one [ascii] each), compared code unit by code unit. [PNum n] is the
    number [n] for a safe integer [n] (at most 2^53 - 1 in absolute
    value, see [safe_integer]); beyond that range [PNum n] stands for no
    JavaScript number, and a statement about the text of numbers is made
    for safe integers only. *)
Inductive prim : Type :=
| PUndefined
| PNull
| PBool (b : bool)
| PNum (n : Z)
| PStr (s : string).

(** Label data: what an array of labels holds.  Nested arrays and
    objects are held by content: the module never mutates them and
    never compares them by identity. Label data is a finite tree (no
    cycles); an object is the list of its own enumerable properties in
    the order JavaScript enumerates them, and its keys are distinct. *)
Inductive label : Type :=
| LPrim (p : prim)
| LArr (xs : list label)
| LObj (ps : list (string * label)).

(** Top-level arrays (a sample's [output], the sequence a classifier
    returns) are mutable and shared: they live in the heap and are
    passed by reference. Objects are records of values; no function of
    the module writes a property. *)
Definition loc := positive.
Bind Scope positive_scope with loc.

Inductive value : Type :=
| VPrim (p : prim)
| VArr (l : loc)
| VObj (ps : list (string * value)).

Abbreviation heap := (gmap loc (list label)).

Definition undefined : value := VPrim PUndefined.

(** The elements of the array at [l]. *)
Definition elems (h : heap) (l : loc) : list label := default [] (h !! l).

(** The content of a value at the moment it is looked at. *)
Fixpoint snapshot (h : heap) (v : value) : label :=
  match v with
  | VPrim p => LPrim p
  | VArr l => LArr (elems h l)
  | VObj ps => LObj (map (fun kv => (fst kv, snapshot h (snd kv))) ps)
  end.

(** [ToBoolean]. Arrays and objects, also empty ones, are truthy. *)
Definition truthy (v : value) : bool :=
  match v with
  | VPrim PUndefined | VPrim PNull => false
  | VPrim (PBool b) => b
  | VPrim (PNum n) => negb (n =? 0)%Z
  | VPrim (PStr s) => negb (String.eqb s EmptyString)
  | VArr _ | VObj _ => true
  end.

(** [_.isString] and [_.isArray]. *)
Definition isString (x : label) : bool :=
  match x with LPrim (PStr _) => true | _ => false end.

Definition isArray (v : value) : bool :=
  match v with VArr _ => true | _ => false end.

(** ** JSON.stringify *)

Definition dquote : string := String "034"%char EmptyString.
Definition backslash : string := String "092"%char EmptyString.

Definition hex_digit (n : N) : ascii :=
  if (n <? 10)%N then ascii_of_N (48 + n) else ascii_of_N (87 + n).

Definition escape_char (c : ascii) : string :=
  let n := N_of_ascii c in
  if (n =? 34)%N then backslash +:+ dquote
  else if (n =? 92)%N then backslash +:+ backslash
  else if (n =? 8)%N then backslash +:+ "b"
  else if (n =? 9)%N then backslash +:+ "t"
  else if (n =? 10)%N then backslash +:+ "n"
  else if (n =? 12)%N then backslash +:+ "f"
  else if (n =? 13)%N then backslash +:+ "r"
  else if (n <? 32)%N then
    backslash +:+ "u00" +:+
    String (hex_digit (n / 16)) (String (hex_digit (n mod 16)) EmptyString)
  else String c EmptyString.

Fixpoint escape (s : string) : string :=
  match s with
  | EmptyString => EmptyString
  | String c s' => escape_char c +:+ escape s'
  end.

Definition quote (s : string) : string := dquote +:+ escape s +:+ dquote.

(** The integers that are JavaScript numbers with all their digits. *)
Definition safe_integer (n : Z) : Prop :=
  (- (2 ^ 53 - 1) <= n <= 2 ^ 53 - 1)%Z.

(** [Number.prototype.toString] on a safe integer: its decimal digits,
    after a minus sign when it is negative. (From 10^21 on JavaScript
    prints an exponent; those numbers are not safe integers.) *)
Definition number_to_string (n : Z) : string := pretty n.

(** The integer a decimal numeral denotes. *)
Definition digit_value (c : ascii) : option N :=
  let n := N_of_ascii c in
  if ((48 <=? n) && (n <=? 57))%N then Some (n - 48)%N else None.

Fixpoint decimal_value (acc : N) (s : string) : option N :=
  match s with
  | EmptyString => Some acc
  | String c s' =>
      match digit_value c with
      | Some d => decimal_value (acc * 10 + d) s'
      | None => None
      end
  end.

Definition parse_integer (s : string) : option Z :=
  match s with
  | EmptyString => None
  | String c s' =>
      if Ascii.eqb c "-"
      then match s' with
           | EmptyString => None
           | _ => (fun n => (- Z.of_N n)%Z) <$> decimal_value 0 s'
           end
      else Z.of_N <$> decimal_value 0 s
  end.

Definition bool_to_string (b : bool) : string :=
  if b then "true" else "false".

(** [JSON.stringify x]; [None] is the result [undefined]. *)
Fixpoint JSON_stringify (x : label) : option string :=
  match x with
  | LPrim PUndefined => None
  | LPrim PNull => Some "null"
  | LPrim (PBool b) => Some (bool_to_string b)
  | LPrim (PNum n) => Some (number_to_string n)
  | LPrim (PStr s) => Some (quote s)
  | LArr xs =>
      Some ("[" +:+ String.concat ","
                     (map (fun y => default "null" (JSON_stringify y)) xs)
                +:+ "]")
  | LObj ps =>
      Some ("{" +:+ String.concat ","
                     (omap (fun kv =>
                              match JSON_stringify (snd kv) with
                              | Some s => Some (quote (fst kv) +:+ ":" +:+ s)
                              | None => None
                              end) ps)
                +:+ "}")
  end.

(** ** ToString, as used by the default sort order *)

Fixpoint ToString (x : label) : string :=
  match x with
  | LPrim PUndefined => "undefined"
  | LPrim PNull => "null"
  | LPrim (PBool b) => bool_to_string b
  | LPrim (PNum n) => number_to_string n
  | LPrim (PStr s) => s
  | LArr xs =>
      String.concat ","
        (map (fun y => match y with
                       | LPrim PUndefined | LPrim PNull => EmptyString
                       | _ => ToString y
                       end) xs)
  | LObj _ => "[object Object]"
  end.

(** ** Array.prototype.sort without a comparison function

    [undefined] elements go last; the others are ordered by the code
    units of their [ToString]. The sort is stable; on arrays of strings,
    which is what [normalizeClasses] sorts, the result does not depend
    on that. *)
Definition sort_le (x y : label) : bool :=
  match x, y with
  | _, LPrim PUndefined => true
  | LPrim PUndefined, _ => false
  | _, _ => String.leb (ToString x) (ToString y)
  end.

Fixpoint sort_insert (x : label) (l : list label) : list label :=
  match l with
  | [] => [x]
  | y :: l' => if sort_le x y then x :: l else y :: sort_insert x l'
  end.

Definition sort (l : list label) : list label := foldr sort_insert [] l.

(** The order [sort] sorts by, as a relation. *)
Definition sort_order (x y : label) : Prop := Is_true (sort_le x y).

#[global] Instance undefined_dec (x : label) : Decision (x = LPrim PUndefined).
Proof. destruct x as [[]| |]; (by left) || (by right). Defined.

(** ** underscore's isEqual (deep equality by content) *)

Definition prim_eqb (p q : prim) : bool :=
  match p, q with
  | PUndefined, PUndefined => true
  | PNull, PNull => true
  | PBool a, PBool b => Bool.eqb a b
  | PNum a, PNum b => (a =? b)%Z
  | PStr a, PStr b => String.eqb a b
  | _, _ => false
  end.

Fixpoint assoc {A} (k : string) (ps : list (string * A)) : option A :=
  match ps with
  | [] => None
  | (k', v) :: ps' => if String.eqb k k' then Some v else assoc k ps'
  end.

Fixpoint deep_eq (a b : label) {struct a} : bool :=
  match a, b with
  | LPrim p, LPrim q => prim_eqb p q
  | LArr xs, LArr ys =>
      (fix go (xs ys : list label) {struct xs} : bool :=
         match xs, ys with
         | [], [] => true
         | x :: xs', y :: ys' => deep_eq x y && go xs' ys'
         | _, _ => false
         end) xs ys
  | LObj ps, LObj qs =>
      (length ps =? length qs)%nat &&
      (fix go (ps : list (string * label)) : bool :=
         match ps with
         | [] => true
         | (k, x) :: ps' =>
             match assoc k qs with
             | Some y => deep_eq x y
             | None => false
             end && go ps'
         end) ps
  | _, _ => false
  end.

Definition isEqual (h : heap) (a b : value) : bool :=
  deep_eq (snapshot h a) (snapshot h b).

End JS.

(* ===================================================================== *)
(** * Effects: the heap of arrays, the console, exceptions *)
(* ===================================================================== *)

Module Eff.
Import JS.

Inductive error : Type :=
| TypeError
| Raised (payload : label).

(** One entry per [console.log] / [console.dir] call, with the operands
    the call prints, taken at the moment of the call. The layout of the
    printed text and the elapsed milliseconds of the training lines are
    not part of the model. *)
Inductive line : Type :=
| Text (s : string)
| Mismatch (input expected got : label)
| Summary (shortStats : string)
| Explanations (input : label) (explanations : list string)
| Dir (x : label)
| Divergence (input classes1 classes2 : label)
| StartTraining (leading_newline : bool) (n : nat) (classes : option nat)
| EndTraining (n : nat) (classes : option nat).

Record state : Type := State { heap_of : heap; console : list line }.

Inductive result (A : Type) : Type :=
| Ret (a : A)
| Throw (e : error).
Arguments Ret {A} a.
Arguments Throw {A} e.

Definition M (A : Type) : Type := state -> result A * state.

Definition ret {A} (a : A) : M A := fun s => (Ret a, s).

Definition throw {A} (e : error) : M A := fun s => (Throw e, s).

Definition bind {A B} (m : M A) (k : A -> M B) : M B :=
  fun s => match m s with
           | (Ret a, s') => k a s'
           | (Throw e, s') => (Throw e, s')
           end.

#[global] Instance M_ret : MRet M := @ret.
#[global] Instance M_bind : MBind M := fun A B k m => bind m k.

(** [console.log]. *)
Definition log (ln : line) : M unit :=
  fun s => (Ret tt, State (heap_of s) (console s ++ [ln])).

Definition when (b : bool) (m : M unit) : M unit :=
  if b then m else ret tt.

(** Reading the heap. *)
Definition gets {A} (f : heap -> A) : M A := fun s => (Ret (f (heap_of s)), s).

(** A call into a collaborator, which may read and write the heap and
    may throw, and does not write to the console. *)
Definition call {A} (f : heap -> result A * heap) : M A :=
  fun s => let (r, h) := f (heap_of s) in (r, State h (console s)).

(** A [for] loop over an array, threading the loop-carried variables. *)
Fixpoint for_each {A S} (body : S -> A -> M S) (l : list A) (acc : S) : M S :=
  match l with
  | [] => ret acc
  | x :: l' => acc' ← body acc x; for_each body l' acc'
  end.

(** ** Arrays *)

(** An array literal [[v1, ..., vn]]: a new array at a new location. *)
Definition new_array (xs : list label) : M value :=
  fun s => let l := fresh (dom (heap_of s)) in
           (Ret (VArr l), State (<[l := xs]> (heap_of s)) (console s)).

(** [a.map(f)]: a new array; [a] is left as it is. *)
Definition array_map (f : label -> label) (a : value) : M value :=
  match a with
  | VArr l => xs ← gets (fun h => elems h l); new_array (map f xs)
  | _ => throw TypeError
  end.

(** [a.sort()]: in place. Only arrays have the method. *)
Definition array_sort (a : value) : M unit :=
  match a with
  | VArr l => fun s => (Ret tt, State (alter sort l (heap_of s)) (console s))
  | _ => throw TypeError
  end.

(** [v.classes]. Reading a property of [undefined] or [null] throws;
    an array or a primitive has no such property. *)
Definition get_classes (v : value) : M value :=
  match v with
  | VPrim PUndefined | VPrim PNull => throw TypeError
  | VObj ps => ret (default undefined (assoc "classes" ps))
  | _ => ret undefined
  end.

End Eff.

(* ===================================================================== *)
(** * utils/trainAndTest.js *)
(* ===================================================================== *)

Module TrainAndTest.
Import JS Eff.

(** ** Data *)

(** A sample [{input: ..., output: ...}]. *)
Record sample : Type := Sample { input : value; output : value }.

(** A training set: an array of samples that may carry an [allClasses]
    annotation. *)
Record trainset : Type :=
  TrainSet { samples : list sample; allClasses : option (list label) }.

Definition sample_snapshot (h : heap) (s : sample) : label :=
  LObj [("input", snapshot h (input s)); ("output", snapshot h (output s))].

(** ** Collaborators *)

(** Modelled from the spec: [./PrecisionRecall] is required by the
    module and is not part of it. The outcome recorder is taken by its
    interface: [addCases(expected, actual, wantExplanations)] returns
    the explanations of the case, [calculateStats()] finalizes,
    [shortStats()] is the one-line summary, [fullStats()] the structured
    summary. A recorder is a mutable object; each method returns the
    recorder as it is after the call. It sees the content of the two
    label sequences it is given. *)
Class PrecisionRecall (R : Type) : Type := {
  newPrecisionRecall : R;
  addCases : R -> label -> label -> bool -> R * list string;
  calculateStats : R -> R;
  shortStats : R -> string;
  fullStats : R -> label
}.

(** Modelled from the spec: [./hash] is required by the module and is
    not part of it. [hash.add(target, source)] merges a finalized summary
    into an accumulator; the result is the accumulator after the call. *)
Class Hash : Type := { hash_add : label -> label -> label }.

(** A classifier: [classify(input, explain)] and [trainBatch(dataset)].
    Both may allocate arrays, write arrays and throw. [trainBatch]
    returns the classifier as it is after training. *)
Class Classifier (C : Type) : Type := {
  classify : C -> value -> value -> heap -> result value * heap;
  trainBatch : C -> trainset -> heap -> result C * heap
}.

Definition tab : string := String "009"%char EmptyString.

(** ** writeDataset *)

(** The line of one sample:
    [JSON.stringify(sample.input)+separator+"["+sample.output+"]"].
    Concatenation turns an [undefined] on the left into the text
    "undefined" and the output into its [ToString]. *)
Definition dataset_line (h : heap) (separator : string) (s : sample) : line :=
  Text (default "undefined" (JSON_stringify (snapshot h (input s)))
        +:+ separator +:+ "[" +:+ ToString (snapshot h (output s)) +:+ "]").

Definition writeDataset (dataset : list sample) (separator : string) : M unit :=
  for_each (fun _ sample =>
              ln ← gets (fun h => dataset_line h separator sample); log ln)
    dataset tt.

Section Functions.

Context {R : Type} `{!PrecisionRecall R} `{!Hash}.
Context {C C' : Type} `{!Classifier C} `{!Classifier C'}.

(** ** Label normalisation *)

Definition stringifyClass (aClass : label) : label :=
  if isString aClass then aClass
  else match JSON_stringify aClass with
       | Some s => LPrim (PStr s)
       | None => LPrim PUndefined
       end.

Definition normalizeClasses (expectedClasses : value) : M value :=
  expectedClasses ←
    (if negb (isArray expectedClasses)
     then x ← gets (fun h => snapshot h expectedClasses); new_array [x]
     else mret expectedClasses);
  expectedClasses ← array_map stringifyClass expectedClasses;
  array_sort expectedClasses;;
  mret expectedClasses.

(** ** testLite *)

(** The body of the loop of [testLite], for the sample [dataset[i]]. *)
Definition testLite_body (classifier : C) (explain : value)
    (currentStats : R) (s : sample) : M R :=
  expectedClasses ← normalizeClasses (output s);
  actualClassesWithExplanations ← call (classify classifier (input s) explain);
  classes ← get_classes actualClassesWithExplanations;
  let actualClasses :=
    if truthy classes then classes else actualClassesWithExplanations in
  array_sort actualClasses;;
  equal ← gets (fun h => isEqual h expectedClasses actualClasses);
  when (negb equal)
    (ln ← gets (fun h =>
        Mismatch (snapshot h (input s)) (snapshot h expectedClasses)
          (snapshot h (if truthy explain then actualClassesWithExplanations
                       else actualClasses)));
     log ln);;
  expected ← gets (fun h => snapshot h expectedClasses);
  actual ← gets (fun h => snapshot h actualClasses);
  mret (fst (addCases currentStats expected actual false)).

Definition testLite (classifier : C) (dataset : list sample)
    (explain : value) : M unit :=
  currentStats ← for_each (testLite_body classifier explain) dataset
                   newPrecisionRecall;
  log (Summary (shortStats (calculateStats currentStats))).

(** ** test *)

(** The body of the loop of [test]; the loop carries [currentStats] and
    the caller's [microAverage], when there is one. *)
Definition test_body (classifier : C) (verbosity : Z)
    (acc : R * option R) (s : sample) : M (R * option R) :=
  let currentStats := fst acc in
  let microAverage := snd acc in
  expectedClasses ← normalizeClasses (output s);
  actualClasses ← call (classify classifier (input s) undefined);
  expected ← gets (fun h => snapshot h expectedClasses);
  actual ← gets (fun h => snapshot h actualClasses);
  let added := addCases currentStats expected actual (verbosity >? 2)%Z in
  let explanations := snd added in
  when ((verbosity >? 1)%Z && (0 <? length explanations)%nat)
    (ln ← gets (fun h => Explanations (snapshot h (input s)) explanations);
     log ln);;
  mret (fst added,
        (fun m => fst (addCases m expected actual false)) <$> microAverage).

(** [test] returns [currentStats]; the caller's [microAverage] and
    [macroSum] are returned next to it as they are after the call. *)
Definition test (classifier : C) (testSet : list sample) (verbosity : Z)
    (microAverage : option R) (macroSum : option label)
    : M (R * option R * option label) :=
  acc ← for_each (test_body classifier verbosity) testSet
          (newPrecisionRecall, microAverage);
  let currentStats := calculateStats (fst acc) in
  let macroSum := (fun m => hash_add m (fullStats currentStats)) <$> macroSum in
  when (verbosity >? 0)%Z
    (when (verbosity >? 2)%Z
       (log (Text "FULL RESULTS:");;
        log (Dir (fullStats currentStats)));;
     log (Summary (shortStats currentStats)));;
  mret (currentStats, snd acc, macroSum).

(** ** compare *)

Definition classifier1_correct : line := Text (tab +:+ tab +:+ "Classifier1 is correct").
Definition classifier2_correct : line := Text (tab +:+ tab +:+ "Classifier2 is correct").
Definition both_incorrect : line := Text (tab +:+ tab +:+ "both are incorrect").

(** The body of the loop of [compare]. *)
Definition compare_body (classifier1 : C) (classifier2 : C')
    (explain : value) (s : sample) : M unit :=
  expectedClasses ← normalizeClasses (output s);
  actualClassesWithExplanations1 ← call (classify classifier1 (input s) explain);
  actualClassesWithExplanations2 ← call (classify classifier2 (input s) explain);
  actualClasses1 ←
    (if truthy explain then get_classes actualClassesWithExplanations1
     else mret actualClassesWithExplanations1);
  actualClasses2 ←
    (if truthy explain then get_classes actualClassesWithExplanations2
     else mret actualClassesWithExplanations2);
  array_sort actualClasses1;;
  array_sort actualClasses2;;
  equal ← gets (fun h => isEqual h actualClasses1 actualClasses2);
  when (negb equal)
    (ln ← gets (fun h =>
        Divergence (snapshot h (input s))
          (snapshot h (if truthy explain then actualClassesWithExplanations1
                       else actualClasses1))
          (snapshot h (if truthy explain then actualClassesWithExplanations2
                       else actualClasses2)));
     log ln;;
     correct1 ← gets (fun h => isEqual h actualClasses1 expectedClasses);
     if (correct1 : bool) then log classifier1_correct
     else
       correct2 ← gets (fun h => isEqual h actualClasses2 expectedClasses);
       if (correct2 : bool) then log classifier2_correct
       else log both_incorrect).

(** The two recorders [stats1] and [stats2] that [compare] creates are
    never used, and [compare] has no [return]. *)
Definition compare (classifier1 : C) (classifier2 : C')
    (dataset : list sample) (explain : value) : M unit :=
  for_each (fun _ s => compare_body classifier1 classifier2 explain s)
    dataset tt.

(** ** trainAndTest and trainAndCompare *)

Definition start_training (newline : bool) (trainSet : trainset) : line :=
  StartTraining newline (length (samples trainSet))
    (length <$> allClasses trainSet).

Definition end_training (trainSet : trainset) : line :=
  EndTraining (length (samples trainSet)) (length <$> allClasses trainSet).

Definition trainAndTest
    (createNewClassifierFunction : heap -> result C * heap)
    (trainSet : trainset) (testSet : list sample) (verbosity : Z)
    (microAverage : option R) (macroSum : option label)
    : M (R * option R * option label) :=
  classifier ← call createNewClassifierFunction;
  when (verbosity >? 0)%Z (log (start_training true trainSet));;
  when (verbosity >? 2)%Z
    (ln ← gets (fun h => Dir (LArr (map (sample_snapshot h) (samples trainSet))));
     log ln);;
  classifier ← call (trainBatch classifier trainSet);
  when (verbosity >? 0)%Z (log (end_training trainSet));;
  test classifier testSet verbosity microAverage macroSum.

Definition trainAndCompare
    (createNewClassifier1Function : heap -> result C * heap)
    (createNewClassifier2Function : heap -> result C' * heap)
    (trainSet : trainset) (testSet : list sample) (verbosity : Z) : M unit :=
  classifier1 ← call createNewClassifier1Function;
  classifier2 ← call createNewClassifier2Function;
  when (verbosity >? 0)%Z (log (start_training true trainSet));;
  classifier1 ← call (trainBatch classifier1 trainSet);
  when (verbosity >? 0)%Z (log (end_training trainSet));;
  when (verbosity >? 0)%Z (log (start_training false trainSet));;
  classifier2 ← call (trainBatch classifier2 trainSet);
  when (verbosity >? 0)%Z (log (end_training trainSet));;
  compare classifier1 classifier2 testSet (VPrim (PNum verbosity)).

End Functions.

(** ** Vocabulary of the statements *)

(** A normalized label: a string, or [undefined] where [JSON.stringify]
    has no result. *)
Definition flat (x : label) : Prop :=
  match x with
  | LPrim (PStr _) | LPrim PUndefined => True
  | _ => False
  end.

(** The sequence [normalizeClasses] computes from its argument, read in
    the heap [h]. *)
Definition normalized (h : heap) (v : value) : list label :=
  sort (map stringifyClass
          (match v with VArr l => elems h l | _ => [snapshot h v] end)).

(** [classes_at r l]: the class sequence of the classification result
    [r], as [testLite] takes it, is the array at [l]: [r] is that array,
    or an object whose property [classes] is that array. *)
Inductive classes_at : value -> loc -> Prop :=
| classes_bare l : classes_at (VArr l) l
| classes_field ps l :
    assoc "classes" ps = Some (VArr l) -> classes_at (VObj ps) l.

(** [unwraps_to explain r l]: the class sequence of [r], as [compare]
    takes it under the flag [explain], is the array at [l]. *)
Inductive unwraps_to (explain : value) : value -> loc -> Prop :=
| unwraps_bare l :
    truthy explain = false -> unwraps_to explain (VArr l) l
| unwraps_field ps l :
    truthy explain = true -> assoc "classes" ps = Some (VArr l) ->
    unwraps_to explain (VObj ps) l.

(** [valid h v]: every array that [v] refers to is in the heap [h]. *)
Fixpoint valid (h : heap) (v : value) : Prop :=
  match v with
  | VPrim _ => True
  | VArr l => is_Some (h !! l)
  | VObj ps =>
      (fix all (ps : list (string * value)) : Prop :=
         match ps with
         | [] => True
         | kv :: ps' => valid h (snd kv) /\ all ps'
         end) ps
  end.

(** [distinct_keys x]: no object inside [x] has the same key twice. *)
Fixpoint distinct_keys (x : label) : Prop :=
  match x with
  | LPrim _ => True
  | LArr xs =>
      (fix all (xs : list label) : Prop :=
         match xs with
         | [] => True
         | y :: ys => distinct_keys y /\ all ys
         end) xs
  | LObj ps =>
      NoDup (map fst ps) /\
      (fix all (ps : list (string * label)) : Prop :=
         match ps with
         | [] => True
         | kv :: ps' => distinct_keys (snd kv) /\ all ps'
         end) ps
  end.

(** [answers h0 c answer smp]: the output of [smp] is in [h0], and in
    every heap that extends [h0], classifying the input of [smp] returns
    a value that holds [answer (input smp)] and changes no array of the
    heap. The classifier may allocate the array it returns and may read
    the heap. *)
Definition answers {C : Type} `{!Classifier C} (h0 : heap) (c : C)
    (answer : value -> label) (smp : sample) : Prop :=
  valid h0 (output smp) /\
  forall h, h0 ⊆ h ->
    exists r h', classify c (input smp) undefined h = (Ret r, h') /\
                 h ⊆ h' /\
                 snapshot h' r = answer (input smp).

(** What one iteration of [test] does to [currentStats] and to
    [microAverage] when the classifier's result for an input holds
    [answer input], in a heap that extends [h]. *)
Definition record_case {R : Type} `{!PrecisionRecall R} (h : heap)
    (answer : value -> label) (verbosity : Z) (acc : R * option R) (s : sample)
    : R * option R :=
  let expected := LArr (normalized h (output s)) in
  let actual := answer (input s) in
  (fst (addCases (fst acc) expected actual (verbosity >? 2)%Z),
   (fun m => fst (addCases m expected actual false)) <$> snd acc).

(** The follow-up line of a divergence. *)
Definition verdict (h : heap) (expected actual1 actual2 : value) : line :=
  if isEqual h actual1 expected then classifier1_correct
  else if isEqual h actual2 expected then classifier2_correct
  else both_incorrect.

End TrainAndTest.

(* ===================================================================== *)
(** * Sample collaborators, for the examples *)
(* ===================================================================== *)

Module Examples.
Import JS Eff TrainAndTest.

(** A recorder that keeps the cases it was given, in order. *)
Record journal : Type :=
  Journal { cases : list (label * label); finalized : bool }.

#[global] Instance journal_recorder : PrecisionRecall journal := {|
  newPrecisionRecall := Journal [] false;
  addCases r expected actual _ :=
    (Journal (cases r ++ [(expected, actual)]) (finalized r), []);
  calculateStats r := Journal (cases r) true;
  shortStats r := pretty (length (cases r)) +:+ " cases";
  fullStats r := LObj [("count", LPrim (PNum (Z.of_nat (length (cases r)))))]
|}.

(** A recorder that counts the cases and the exact matches. *)
Record tally : Type := Tally { count : nat; correct : nat }.

#[global] Instance tally_recorder : PrecisionRecall tally := {|
  newPrecisionRecall := Tally 0 0;
  addCases r expected actual wantExplanations :=
    if deep_eq expected actual
    then (Tally (S (count r)) (S (correct r)),
          if wantExplanations then ["all true"] else [])
    else (Tally (S (count r)) (correct r), ["mismatch"]);
  calculateStats r := r;
  shortStats r := pretty (correct r) +:+ "/" +:+ pretty (count r);
  fullStats r := LObj [("count", LPrim (PNum (Z.of_nat (count r))));
                       ("TRUE", LPrim (PNum (Z.of_nat (correct r))))]
|}.

(** [hash.add] on one-level hashes of numbers. *)
#[global] Instance number_hash : Hash := {|
  hash_add target source :=
    match target, source with
    | LObj ps, LObj qs =>
        LObj (map (fun kv =>
                match snd kv, assoc (fst kv) qs with
                | LPrim (PNum a), Some (LPrim (PNum b)) =>
                    (fst kv, LPrim (PNum (a + b)))
                | _, _ => kv
                end) ps)
    | _, _ => target
    end
|}.

(** A classifier that is a pure function of the input and of the
    [explain] flag, and that training leaves as it is. *)
#[global] Instance function_classifier : Classifier (value -> value -> value) := {|
  classify f input explain h := (Ret (f input explain), h);
  trainBatch f _ h := (Ret f, h)
|}.

Definition str (s : string) : label := LPrim (PStr s).

(** A heap with a few arrays, and samples over it. *)
Definition heap0 : heap :=
  <[1%positive := [str "B"; str "A"]]>
  (<[2%positive := [str "A"]]>
  (<[3%positive := [str "A"; str "B"]]> ∅)).

Definition state0 : state := State heap0 [].

Definition sample_x : sample := Sample (VPrim (PStr "x")) (VPrim (PStr "A")).
Definition sample_y : sample := Sample (VPrim (PStr "y")) (VArr 3%positive).

(** Returns the array at 2 whatever the input. *)
Definition always_A : value -> value -> value := fun _ _ => VArr 2%positive.

(** Returns the unsorted array at 1 whatever the input. *)
Definition always_BA : value -> value -> value := fun _ _ => VArr 1%positive.

(** Returns the array at 2 wrapped with explanations, whatever the flag. *)
Definition explained_A : value -> value -> value :=
  fun _ _ => VObj [("classes", VArr 2%positive); ("explanations", VPrim (PStr "why"))].

(** Wraps the result when asked to explain. *)
Definition explains (l : loc) : value -> value -> value :=
  fun _ explain =>
    if truthy explain
    then VObj [("classes", VArr l); ("explanations", VPrim (PStr "why"))]
    else VArr l.

(** The state after [normalizeClasses] on the output of a sample. *)
Definition state_x : state := snd (normalizeClasses (output sample_x) state0).
Definition state_y : state := snd (normalizeClasses (output sample_y) state0).

(** The actual label sets a journal holds at the end of a run. *)
Definition recorded_actuals {A B}
    (run : result (journal * A * B) * state) : list label :=
  match fst run with
  | Ret (stats, _, _) => map snd (cases stats)
  | Throw _ => []
  end.

(** A classifier that returns one label, not an array of labels. *)
Definition scalar_A : value -> value -> value := fun _ _ => VPrim (PStr "A").

(** A classifier that knows the input "x" only and returns [null] for
    any other. *)
Definition knows_x : value -> value -> value :=
  fun input _ =>
    match input with
    | VPrim (PStr "x") => VArr 2
    | _ => VPrim PNull
    end.

(** A classifier that allocates the array it returns at each call. *)
Inductive allocating : Type := Allocating (labels : list label).

#[global] Instance allocating_classifier : Classifier allocating := {|
  classify c _ _ h :=
    let l := fresh (dom h) in
    (Ret (VArr l), <[l := match c with Allocating xs => xs end]> h);
  trainBatch c _ h := (Ret c, h)
|}.

(** A classifier that cannot be trained and cannot classify. *)
Inductive broken : Type := Broken.

#[global] Instance broken_classifier : Classifier broken := {|
  classify _ _ _ h := (Throw (Raised (str "no model")), h);
  trainBatch _ _ h := (Throw (Raised (str "cannot train")), h)
|}.

(** A heap that also holds an array of numbers, and a classifier that
    returns it. *)
Definition heap1 : heap := <[7%positive := [LPrim (PNum 1)]]> heap0.
Definition state1 : state := State heap1 [].
Definition always_1 : value -> value -> value := fun _ _ => VArr 7.

(** A sample whose output is the unsorted array at 1. *)
Definition sample_z : sample := Sample (VPrim (PStr "z")) (VArr 1).

End Examples.

(* ===================================================================== *)
(** * Facts about the JavaScript fragment *)
(* ===================================================================== *)

Module JSFacts.
Import JS TrainAndTest.

(** ** The sort order *)

Lemma sort_le_undefined_r x : sort_le x (LPrim PUndefined) = true.
Proof. by destruct x as [[]| |]. Qed.

Lemma sort_le_undefined_l y :
  sort_le (LPrim PUndefined) y = true -> y = LPrim PUndefined.
Proof. by destruct y as [[]| |]. Qed.

Lemma sort_le_defined x y :
  x <> LPrim PUndefined -> y <> LPrim PUndefined ->
  sort_le x y = String.leb (ToString x) (ToString y).
Proof. by destruct x as [[]| |], y as [[]| |]. Qed.

#[global] Instance sort_order_total : Total sort_order.
Proof.
  intros x y. unfold sort_order.
  destruct (decide (y = LPrim PUndefined)) as [->|Hy].
  { left. by rewrite sort_le_undefined_r. }
  destruct (decide (x = LPrim PUndefined)) as [->|Hx].
  { right. by rewrite sort_le_undefined_r. }
  rewrite !sort_le_defined by done.
  apply (total String.le).
Qed.

#[global] Instance sort_order_trans : Transitive sort_order.
Proof.
  intros x y z. unfold sort_order. intros Hxy Hyz.
  destruct (decide (z = LPrim PUndefined)) as [->|Hz].
  { by rewrite sort_le_undefined_r. }
  destruct (decide (y = LPrim PUndefined)) as [->|Hy].
  { apply Is_true_true, sort_le_undefined_l in Hyz. done. }
  destruct (decide (x = LPrim PUndefined)) as [->|Hx].
  { apply Is_true_true, sort_le_undefined_l in Hxy. done. }
  rewrite sort_le_defined in * by done.
  by trans (ToString y).
Qed.

Lemma sort_order_antisym_flat x y :
  flat x -> flat y -> sort_order x y -> sort_order y x -> x = y.
Proof.
  unfold sort_order. intros Hx Hy Hxy Hyx.
  destruct x as [[| | | |s]| |], y as [[| | | |t]| |]; try done.
  simpl in *. f_equal. f_equal. by apply (anti_symm String.le).
Qed.

(** ** The sort *)

Lemma sort_insert_Permutation x l : sort_insert x l ≡ₚ x :: l.
Proof.
  induction l as [|y l IH]; simpl; [done|].
  destruct (sort_le x y); [done|].
  rewrite IH. apply Permutation_swap.
Qed.

Lemma sort_Permutation l : sort l ≡ₚ l.
Proof.
  induction l as [|x l IH]; simpl; [done|].
  by rewrite sort_insert_Permutation, IH.
Qed.

Lemma sort_length l : length (sort l) = length l.
Proof. by rewrite sort_Permutation. Qed.

Lemma Sorted_sort_insert x l :
  Sorted sort_order l -> Sorted sort_order (sort_insert x l).
Proof.
  induction 1 as [|y l Hl IH Hy]; simpl.
  { by repeat constructor. }
  destruct (sort_le x y) eqn:Hxy.
  { constructor; [by constructor|]. constructor. unfold sort_order. by rewrite Hxy. }
  constructor; [done|].
  assert (sort_order y x) as Hyx.
  { destruct (total sort_order x y) as [H|H]; [|done].
    unfold sort_order in H. by rewrite Hxy in H. }
  destruct Hy as [|z l Hz]; simpl; [by constructor|].
  destruct (sort_le x z); by constructor.
Qed.

Lemma Sorted_sort l : Sorted sort_order (sort l).
Proof.
  induction l as [|x l IH]; simpl; [constructor|].
  by apply Sorted_sort_insert.
Qed.

(** Sorting a sorted array leaves it as it is. *)
Lemma sort_sorted l : Sorted sort_order l -> sort l = l.
Proof.
  induction 1 as [|x l Hl IH Hx]; simpl; [done|].
  rewrite IH. destruct Hx as [|y l Hxy]; simpl; [done|].
  unfold sort_order in Hxy. by destruct (sort_le x y).
Qed.

Lemma sort_idempotent l : sort (sort l) = sort l.
Proof. apply sort_sorted, Sorted_sort. Qed.

(** On normalized labels the order is antisymmetric, so the result of
    the sort depends on the elements only. *)
Lemma sort_flat_Permutation l1 l2 :
  Forall flat l1 -> l1 ≡ₚ l2 -> sort l1 = sort l2.
Proof.
  intros Hflat Hperm.
  apply (Sorted_unique_strong sort_order); [|apply Sorted_sort..|].
  - intros x1 x2 Hx1 Hx2.
    apply sort_order_antisym_flat.
    + rewrite Forall_forall in Hflat. apply Hflat.
      by rewrite <-(sort_Permutation l1).
    + rewrite Forall_forall in Hflat. apply Hflat.
      by rewrite Hperm, <-(sort_Permutation l2).
  - by rewrite !sort_Permutation.
Qed.

Lemma sort_flat l : Forall flat l -> Forall flat (sort l).
Proof. by rewrite sort_Permutation. Qed.

(** ** stringifyClass *)

Lemma stringifyClass_flat x : flat (stringifyClass x).
Proof.
  unfold stringifyClass.
  destruct (isString x) eqn:Hx.
  - by destruct x as [[]| |].
  - by destruct (JSON_stringify x).
Qed.

Lemma stringifyClass_of_flat x : flat x -> stringifyClass x = x.
Proof. by destruct x as [[]| |]. Qed.

Lemma map_stringifyClass_flat l : Forall flat (map stringifyClass l).
Proof. apply Forall_map, Forall_true, stringifyClass_flat. Qed.

Lemma map_stringifyClass_of_flat l :
  Forall flat l -> map stringifyClass l = l.
Proof.
  induction 1 as [|x l Hx Hl IH]; simpl; [done|].
  by rewrite stringifyClass_of_flat, IH.
Qed.

(** ** isEqual against a normalized sequence *)

Lemma prim_eqb_eq p q : prim_eqb p q = true <-> p = q.
Proof.
  destruct p, q; simpl; try (split; (done || congruence)).
  - rewrite Bool.eqb_true_iff. split; congruence.
  - rewrite Z.eqb_eq. split; congruence.
  - rewrite String.eqb_eq. split; congruence.
Qed.

Lemma deep_eq_flat_elem x y : flat x -> deep_eq x y = true <-> x = y.
Proof.
  intros Hx. destruct x as [p| |]; try done.
  destruct y as [q| |]; simpl; [|split; done..].
  rewrite prim_eqb_eq. split; congruence.
Qed.

Lemma deep_eq_flat xs b :
  Forall flat xs -> deep_eq (LArr xs) b = true <-> b = LArr xs.
Proof.
  intros Hxs. destruct b as [|ys|]; simpl; [split; done| |split; done].
  revert ys. induction Hxs as [|x xs Hx Hxs IH]; intros [|y ys];
    try (split; (done || congruence)).
  rewrite andb_true_iff, IH, deep_eq_flat_elem by done.
  split; [intros [-> [= ->]]; done|intros [= -> ->]; done].
Qed.

End JSFacts.

(* ===================================================================== *)
(** * Properties of utils/trainAndTest.js *)
(* ===================================================================== *)

Module Properties.
Import JS Eff TrainAndTest JSFacts.

Ltac unfold_M :=
  unfold mbind, M_bind, bind, mret, M_ret, ret, throw, gets, log, when, call,
    new_array, array_map, array_sort, get_classes in *.

Lemma fresh_lookup (h : heap) : h !! fresh (dom h) = None.
Proof. apply not_elem_of_dom, is_fresh. Qed.

Lemma elems_lookup (h : heap) l xs : h !! l = Some xs -> elems h l = xs.
Proof. unfold elems. by intros ->. Qed.

Lemma elems_alter_eq (h : heap) l : elems (alter sort l h) l = sort (elems h l).
Proof. unfold elems. rewrite lookup_alter_eq. by destruct (h !! l). Qed.

Lemma elems_alter_ne (h : heap) l l' :
  l <> l' -> elems (alter sort l h) l' = elems h l'.
Proof. intros. unfold elems. by rewrite lookup_alter_ne. Qed.

Section Normalisation.

(** ** normalizeClasses *)

(** [normalizeClasses] returns a new array that holds the normalized
    sequence, and leaves every array of the heap as it is. *)
Lemma normalizeClasses_run (v : value) (s : state) :
  exists l h',
    normalizeClasses v s = (Ret (VArr l), State h' (console s)) /\
    heap_of s ⊆ h' /\
    heap_of s !! l = None /\
    h' !! l = Some (normalized (heap_of s) v).
Proof.
  destruct s as [h out]. unfold normalizeClasses, normalized.
  destruct (isArray v) eqn:Harr; simpl.
  - destruct v as [p|a|ps]; try done. unfold_M; simpl.
    exists (fresh (dom h)), (<[fresh (dom h) := sort (map stringifyClass (elems h a))]> h).
    rewrite alter_insert_eq. split_and!; try done.
    + apply insert_subseteq, fresh_lookup.
    + apply fresh_lookup.
    + apply lookup_insert_eq.
  - assert (match v with VArr l => elems h l | _ => [snapshot h v] end
            = [snapshot h v]) as -> by (by destruct v).
    unfold_M; simpl.
    set (l0 := fresh (dom h)). set (h0 := <[l0 := [snapshot h v]]> h).
    assert (elems h0 l0 = [snapshot h v]) as ->.
    { apply elems_lookup, lookup_insert_eq. }
    exists (fresh (dom h0)); eexists.
    rewrite alter_insert_eq. split; [reflexivity|].
    assert (h ⊆ h0) by (apply insert_subseteq, fresh_lookup).
    assert (h0 !! fresh (dom h0) = None) as Hf by apply fresh_lookup.
    split_and!.
    + etrans; [done|]. by apply insert_subseteq.
    + by eapply lookup_weaken_None.
    + by rewrite lookup_insert_eq.
Qed.

Lemma normalized_flat h v : Forall flat (normalized h v).
Proof. apply sort_flat, map_stringifyClass_flat. Qed.

Lemma normalized_Sorted h v : Sorted sort_order (normalized h v).
Proof. apply Sorted_sort. Qed.

(** The normalized sequence of an array that holds a normalized
    sequence is that sequence. *)
Lemma normalized_of_normalized (h : heap) l xs :
  h !! l = Some xs -> Forall flat xs -> Sorted sort_order xs ->
  normalized h (VArr l) = xs.
Proof.
  intros Hl Hflat Hsorted. unfold normalized.
  rewrite (elems_lookup _ _ _ Hl), map_stringifyClass_of_flat by done.
  by apply sort_sorted.
Qed.

(** C5. Normalisation is idempotent: normalizing the array that
    [normalizeClasses] returned for [x] yields an array with the same
    sequence of labels, for every [x], scalar or array. *)
Theorem normalizeClasses_idempotent (x : value) (s : state) :
  exists l1 s1 l2 s2,
    normalizeClasses x s = (Ret (VArr l1), s1) /\
    normalizeClasses (VArr l1) s1 = (Ret (VArr l2), s2) /\
    elems (heap_of s2) l2 = elems (heap_of s1) l1.
Proof.
  destruct (normalizeClasses_run x s) as (l1 & h1 & Hrun1 & _ & _ & Hl1).
  destruct (normalizeClasses_run (VArr l1) (State h1 (console s)))
    as (l2 & h2 & Hrun2 & Hsub & _ & Hl2).
  exists l1, (State h1 (console s)), l2, (State h2 (console s)).
  split_and!; [done..|]. simpl in *.
  rewrite (elems_lookup _ _ _ Hl1), (elems_lookup _ _ _ Hl2).
  apply normalized_of_normalized;
    [done|apply normalized_flat|apply normalized_Sorted].
Qed.

(** C6. Normalisation does not depend on the order of its input: two
    arrays that hold the same labels in different orders normalize to
    the same sequence, and that sequence is sorted. *)
Theorem normalizeClasses_permutation (s : state) (l1 l2 : loc) :
  elems (heap_of s) l1 ≡ₚ elems (heap_of s) l2 ->
  exists r1 s1 r2 s2,
    normalizeClasses (VArr l1) s = (Ret (VArr r1), s1) /\
    normalizeClasses (VArr l2) s = (Ret (VArr r2), s2) /\
    elems (heap_of s1) r1 = elems (heap_of s2) r2 /\
    Sorted sort_order (elems (heap_of s1) r1).
Proof.
  intros Hperm.
  destruct (normalizeClasses_run (VArr l1) s) as (r1 & h1 & Hrun1 & _ & _ & Hr1).
  destruct (normalizeClasses_run (VArr l2) s) as (r2 & h2 & Hrun2 & _ & _ & Hr2).
  exists r1, (State h1 (console s)), r2, (State h2 (console s)).
  split_and!; [done..| |]; simpl.
  - rewrite (elems_lookup _ _ _ Hr1), (elems_lookup _ _ _ Hr2).
    unfold normalized. apply sort_flat_Permutation.
    + apply map_stringifyClass_flat.
    + by apply Permutation_map.
  - rewrite (elems_lookup _ _ _ Hr1). apply normalized_Sorted.
Qed.

End Normalisation.

Lemma normalizeClasses_console v s r s1 :
  normalizeClasses v s = (r, s1) -> console s1 = console s.
Proof.
  destruct (normalizeClasses_run v s) as (l & h' & -> & _). by intros [= _ <-].
Qed.

(** ** Loops *)

Lemma for_each_app {A S} (body : S -> A -> M S) l1 l2 acc s :
  for_each body (l1 ++ l2) acc s =
    match for_each body l1 acc s with
    | (Ret acc', s') => for_each body l2 acc' s'
    | (Throw e, s') => (Throw e, s')
    end.
Proof.
  revert acc s. induction l1 as [|x l1 IH]; intros acc s; simpl; [done|].
  unfold mbind, M_bind, bind.
  destruct (body acc x s) as [[acc'|e] s']; [apply IH|done].
Qed.

(** A property of the loop-carried variables and of the state that every
    iteration keeps holds when the loop returns; [E] is what holds of
    the state when an iteration throws. *)
Lemma for_each_invariant {A S} (body : S -> A -> M S)
    (I : S -> state -> Prop) (E : state -> Prop) :
  (forall acc x s acc' s', I acc s -> body acc x s = (Ret acc', s') -> I acc' s') ->
  (forall acc x s e s', I acc s -> body acc x s = (Throw e, s') -> E s') ->
  forall l acc s, I acc s ->
    match for_each body l acc s with
    | (Ret acc', s') => I acc' s'
    | (Throw _, s') => E s'
    end.
Proof.
  intros Hret Hthrow. induction l as [|x l IH]; intros acc s Hacc; simpl; [done|].
  unfold mbind, M_bind, bind.
  destruct (body acc x s) as [[acc'|e] s'] eqn:Hbody.
  - apply IH. by eapply Hret.
  - by eapply Hthrow.
Qed.

(** ** Values in a growing heap *)

Lemma value_ind_nested (P : value -> Prop) :
  (forall p, P (VPrim p)) ->
  (forall l, P (VArr l)) ->
  (forall ps, Forall (fun kv => P (snd kv)) ps -> P (VObj ps)) ->
  forall v, P v.
Proof.
  intros Hp Ha Ho. fix IH 1. intros [p|l|ps]; [apply Hp|apply Ha|].
  apply Ho. induction ps as [|[k v] ps IHps]; constructor; [apply IH|apply IHps].
Qed.

Lemma elems_weaken (h h' : heap) l :
  is_Some (h !! l) -> h ⊆ h' -> elems h' l = elems h l.
Proof.
  intros [xs Hl] Hsub. unfold elems.
  by rewrite Hl, (lookup_weaken _ _ _ _ Hl Hsub).
Qed.

(** Allocation does not change what a valid value holds. *)
Lemma snapshot_weaken (h h' : heap) v :
  valid h v -> h ⊆ h' -> snapshot h' v = snapshot h v.
Proof.
  intros Hv Hsub. induction v as [p|l|ps IH] using value_ind_nested; simpl.
  - done.
  - f_equal. by apply elems_weaken.
  - f_equal. simpl in Hv. induction IH as [|kv ps Hkv Hps IHps]; simpl; [done|].
    destruct Hv as [Hv1 Hv2]. f_equal; [by rewrite Hkv|by apply IHps].
Qed.

Lemma normalized_weaken (h h' : heap) v :
  valid h v -> h ⊆ h' -> normalized h' v = normalized h v.
Proof.
  intros Hv Hsub. unfold normalized. do 2 f_equal.
  destruct v as [p|l|ps].
  - done.
  - by apply elems_weaken.
  - f_equal. by apply (snapshot_weaken h h' (VObj ps)).
Qed.

Lemma foldl_Permutation {A B} (step : B -> A -> B) (l1 l2 : list A) :
  (forall acc x y, step (step acc x) y = step (step acc y) x) ->
  l1 ≡ₚ l2 -> forall acc, foldl step acc l1 = foldl step acc l2.
Proof.
  intros Hcomm. induction 1 as [|x l1 l2 _ IH|x y l|l1 l2 l3 _ IH1 _ IH2];
    intros acc; simpl.
  - done.
  - apply IH.
  - by rewrite Hcomm.
  - by rewrite IH1.
Qed.

Section Evaluation.

Context {R : Type} `{!PrecisionRecall R} `{!Hash}.
Context {C C' : Type} `{!Classifier C} `{!Classifier C'}.

(** ** testLite *)

(** One iteration of [testLite] that runs to its end. *)
Lemma testLite_body_run (c : C) explain (stats : R) smp s e s1 r h1 l :
  normalizeClasses (output smp) s = (Ret (VArr e), s1) ->
  classify c (input smp) explain (heap_of s1) = (Ret r, h1) ->
  classes_at r l ->
  let h := alter sort l h1 in
  testLite_body c explain stats smp s =
    (Ret (fst (addCases stats (LArr (elems h e)) (LArr (elems h l)) false)),
     State h (console s1 ++
       if isEqual h (VArr e) (VArr l) then []
       else [Mismatch (snapshot h (input smp)) (LArr (elems h e))
               (snapshot h (if truthy explain then r else VArr l))])).
Proof.
  intros Hnorm Hcls Hat h. unfold testLite_body.
  unfold_M. rewrite Hnorm. destruct s1 as [h0 out]; simpl in *. rewrite Hcls.
  destruct Hat as [l|ps l Hps]; simpl.
  - fold h. destruct (isEqual h (VArr e) (VArr l)); simpl; [|done].
    by rewrite app_nil_r.
  - rewrite Hps. simpl. fold h.
    destruct (isEqual h (VArr e) (VArr l)); simpl; [|done].
    by rewrite app_nil_r.
Qed.

(** An iteration of [testLite] runs to its end only when the
    classifier returns an array, or an object whose [classes] are an
    array: on anything else [sort] is not a function. *)
Lemma testLite_body_inv (c : C) explain (stats : R) smp s stats' s' :
  testLite_body c explain stats smp s = (Ret stats', s') ->
  exists e s1 r h1 l,
    normalizeClasses (output smp) s = (Ret (VArr e), s1) /\
    classify c (input smp) explain (heap_of s1) = (Ret r, h1) /\
    classes_at r l.
Proof.
  destruct (normalizeClasses_run (output smp) s) as (e & h' & Hnorm & _).
  unfold testLite_body. unfold mbind, M_bind, bind at 1. rewrite Hnorm.
  unfold bind at 1, call at 1. simpl.
  destruct (classify c (input smp) explain h') as [[r|err] h1] eqn:Hcls; [|done].
  intros Hrun. exists e, (State h' (console s)), r, h1.
  assert (exists l, classes_at r l) as [l Hl]; [|by exists l].
  destruct r as [p|l|ps].
  - by destruct p.
  - exists l. constructor.
  - unfold_M. simpl in Hrun.
    destruct (assoc "classes" ps) as [[p|l|qs]|] eqn:Hps; simpl in Hrun.
    + destruct p as [| |b|n|t]; simpl in Hrun; try done.
      * by destruct b.
      * by destruct (negb (n =? 0)%Z).
      * by destruct (negb (String.eqb t EmptyString)).
    + exists l. by constructor.
    + done.
    + done.
Qed.

(** The whole of [testLite], once its loop has run to its end. *)
Lemma testLite_run (c : C) dataset explain s (stats : R) s' :
  for_each (testLite_body c explain) dataset newPrecisionRecall s
    = (Ret stats, s') ->
  testLite c dataset explain s =
    (Ret tt, State (heap_of s')
               (console s' ++ [Summary (shortStats (calculateStats stats))])).
Proof. intros Hloop. unfold testLite. unfold_M. by rewrite Hloop. Qed.

(** On a normalized sequence [isEqual] is equality of the two ordered
    sequences, element by element. *)
Lemma isEqual_flat (h : heap) e l :
  Forall flat (elems h e) ->
  isEqual h (VArr e) (VArr l) = true <-> elems h l = elems h e.
Proof.
  intros Hflat. unfold isEqual.
  change (deep_eq (LArr (elems h e)) (LArr (elems h l)) = true
          <-> elems h l = elems h e).
  rewrite deep_eq_flat by done. split; congruence.
Qed.

(** ** compare *)

Lemma unwraps_to_run explain r l s :
  unwraps_to explain r l ->
  (if truthy explain then get_classes r else mret r) s = (Ret (VArr l), s).
Proof.
  intros [l' Hex|ps l' Hex Hps]; rewrite Hex; [done|].
  unfold_M. by rewrite Hps.
Qed.

Lemma unwrap_inv explain r a s s' :
  (if truthy explain then get_classes r else mret r) s = (Ret a, s') ->
  s' = s /\ forall l, a = VArr l -> unwraps_to explain r l.
Proof.
  destruct (truthy explain) eqn:Hex.
  - destruct r as [[]|l|ps]; unfold_M; intros [= <- <-]; split; try done.
    intros l Hl. apply unwraps_field; [done|].
    destruct (assoc "classes" ps); simpl in Hl; [by f_equal|done].
  - intros [= <- <-]. split; [done|]. intros l ->. by apply unwraps_bare.
Qed.

Lemma array_sort_inv a s s' :
  array_sort a s = (Ret tt, s') -> exists l, a = VArr l.
Proof. destruct a as [p|l|ps]; [done| |done]. by exists l. Qed.

(** An iteration of [compare] runs to its end only when each classifier
    returns what the flag [explain] announces: an array when it is
    falsy, an object whose [classes] are an array when it is truthy. *)
Lemma compare_body_inv (c1 : C) (c2 : C') explain smp s u s' :
  compare_body c1 c2 explain smp s = (Ret u, s') ->
  exists e s1 r1 h1 r2 h2 l1 l2,
    normalizeClasses (output smp) s = (Ret (VArr e), s1) /\
    classify c1 (input smp) explain (heap_of s1) = (Ret r1, h1) /\
    classify c2 (input smp) explain h1 = (Ret r2, h2) /\
    unwraps_to explain r1 l1 /\
    unwraps_to explain r2 l2.
Proof.
  destruct (normalizeClasses_run (output smp) s) as (e & h' & Hnorm & _).
  unfold compare_body. unfold mbind, M_bind, bind at 1. rewrite Hnorm.
  unfold bind at 1, call at 1. simpl.
  destruct (classify c1 (input smp) explain h') as [[r1|err] h1] eqn:Hc1; [|done].
  unfold bind at 1, call at 1. simpl.
  destruct (classify c2 (input smp) explain h1) as [[r2|err] h2] eqn:Hc2; [|done].
  unfold bind at 1.
  destruct ((if truthy explain then get_classes r1 else mret r1)
              (State h2 (console s))) as [[a1|err] t1] eqn:Hu1; [|done].
  apply unwrap_inv in Hu1 as [-> Hu1].
  unfold bind at 1.
  destruct ((if truthy explain then get_classes r2 else mret r2)
              (State h2 (console s))) as [[a2|err] t2] eqn:Hu2; [|done].
  apply unwrap_inv in Hu2 as [-> Hu2].
  unfold bind at 1.
  destruct (array_sort a1 (State h2 (console s))) as [[[]|err] t1] eqn:Hs1; [|done].
  apply array_sort_inv in Hs1 as [l1 ->].
  unfold bind at 1.
  destruct (array_sort a2 t1) as [[[]|err] t2] eqn:Hs2; [|done].
  apply array_sort_inv in Hs2 as [l2 ->].
  intros _. exists e, (State h' (console s)), r1, h1, r2, h2, l1, l2.
  split_and!; auto.
Qed.

(** One iteration of [compare] that runs to its end. *)
Lemma compare_body_run (c1 : C) (c2 : C') explain smp s e s1 r1 h1 r2 h2 l1 l2 :
  normalizeClasses (output smp) s = (Ret (VArr e), s1) ->
  classify c1 (input smp) explain (heap_of s1) = (Ret r1, h1) ->
  classify c2 (input smp) explain h1 = (Ret r2, h2) ->
  unwraps_to explain r1 l1 ->
  unwraps_to explain r2 l2 ->
  let h := alter sort l2 (alter sort l1 h2) in
  compare_body c1 c2 explain smp s =
    (Ret tt,
     State h (console s1 ++
       if isEqual h (VArr l1) (VArr l2) then []
       else [Divergence (snapshot h (input smp))
               (snapshot h (if truthy explain then r1 else VArr l1))
               (snapshot h (if truthy explain then r2 else VArr l2));
             verdict h (VArr e) (VArr l1) (VArr l2)])).
Proof.
  intros Hnorm Hc1 Hc2 Hu1 Hu2 h. unfold compare_body.
  unfold mbind, M_bind, bind at 1. rewrite Hnorm.
  destruct s1 as [h0 out]; simpl in *.
  unfold bind at 1, call at 1. simpl. rewrite Hc1.
  unfold bind at 1, call at 1. simpl. rewrite Hc2.
  unfold bind at 1. rewrite (unwraps_to_run _ _ _ _ Hu1).
  unfold bind at 1. rewrite (unwraps_to_run _ _ _ _ Hu2).
  unfold_M. simpl. fold h. unfold verdict.
  destruct (isEqual h (VArr l1) (VArr l2)); simpl.
  { by rewrite app_nil_r. }
  destruct (isEqual h (VArr l1) (VArr e)); simpl.
  { by rewrite <-app_assoc. }
  destruct (isEqual h (VArr l2) (VArr e)); simpl; by rewrite <-app_assoc.
Qed.

(** [compare] runs its body on the samples one after the other. *)
Lemma compare_cons (c1 : C) (c2 : C') smp rest explain s :
  compare c1 c2 (smp :: rest) explain s =
    match compare_body c1 c2 explain smp s with
    | (Ret _, s1) => compare c1 c2 rest explain s1
    | (Throw err, s1) => (Throw err, s1)
    end.
Proof.
  unfold compare. simpl. unfold mbind, M_bind, bind.
  by destruct (compare_body c1 c2 explain smp s) as [[[]|err] s1].
Qed.

Lemma compare_app (c1 : C) (c2 : C') before rest explain s0 s :
  compare c1 c2 before explain s0 = (Ret tt, s) ->
  compare c1 c2 (before ++ rest) explain s0 = compare c1 c2 rest explain s.
Proof. intros Hbefore. unfold compare in *. by rewrite for_each_app, Hbefore. Qed.

Lemma compare_nil (c1 : C) (c2 : C') explain s :
  compare c1 c2 [] explain s = (Ret tt, s).
Proof. done. Qed.

Lemma verdict_lines_distinct :
  classifier1_correct <> classifier2_correct /\
  classifier1_correct <> both_incorrect /\
  classifier2_correct <> both_incorrect.
Proof. by split_and!. Qed.

(** ** test *)

(** One iteration of [test] in which the classifier returns. *)
Lemma test_body_run (c : C) verbosity (stats : R) micro smp s e s1 r h1 :
  normalizeClasses (output smp) s = (Ret (VArr e), s1) ->
  classify c (input smp) undefined (heap_of s1) = (Ret r, h1) ->
  let expected := LArr (elems h1 e) in
  let actual := snapshot h1 r in
  let added := addCases stats expected actual (verbosity >? 2)%Z in
  test_body c verbosity (stats, micro) smp s =
    (Ret (fst added, (fun m => fst (addCases m expected actual false)) <$> micro),
     State h1 (console s1 ++
       if (verbosity >? 1)%Z && (0 <? length (snd added))%nat
       then [Explanations (snapshot h1 (input smp)) (snd added)]
       else [])).
Proof.
  intros Hnorm Hcls expected actual added. unfold test_body.
  unfold_M. rewrite Hnorm. destruct s1 as [h0 out]; simpl in *. rewrite Hcls.
  subst expected actual added.
  destruct (_ && _); simpl; [done|]. by rewrite app_nil_r.
Qed.

(** The end of [test], once its loop has run to its end. *)
Lemma test_run (c : C) testSet verbosity micro macro s (stats : R) micro' s' :
  for_each (test_body c verbosity) testSet (newPrecisionRecall, micro) s
    = (Ret (stats, micro'), s') ->
  let final := calculateStats stats in
  test c testSet verbosity micro macro s =
    (Ret (final, micro', (fun m => hash_add m (fullStats final)) <$> macro),
     State (heap_of s')
       (console s' ++
        if (verbosity >? 0)%Z
        then (if (verbosity >? 2)%Z
              then [Text "FULL RESULTS:"; Dir (fullStats final)] else [])
             ++ [Summary (shortStats final)]
        else [])).
Proof.
  intros Hloop final. unfold test. unfold_M. rewrite Hloop. simpl.
  subst final. destruct (verbosity >? 0)%Z; simpl.
  - destruct (verbosity >? 2)%Z; simpl; [|done]. by rewrite <-!app_assoc.
  - destruct s'. by rewrite app_nil_r.
Qed.

(** ** The claims about the evaluators *)

(** C1 (as amended). For every verbosity, [test] on an empty test set
    returns the finalization of a new recorder, to which no case was
    added, leaves the heap and the caller's [microAverage] as they are,
    and prints no per-sample line. It prints nothing at all when
    [verbosity <= 0]; for [verbosity > 0] it prints the summary line,
    preceded by the full results when [verbosity > 2]. *)
Theorem test_empty_testSet (c : C) (verbosity : Z)
    (microAverage : option R) (macroSum : option label) (s : state) :
  let final := calculateStats newPrecisionRecall in
  test c [] verbosity microAverage macroSum s =
    (Ret (final, microAverage,
          (fun m => hash_add m (fullStats final)) <$> macroSum),
     State (heap_of s)
       (console s ++
        if (verbosity >? 0)%Z
        then (if (verbosity >? 2)%Z
              then [Text "FULL RESULTS:"; Dir (fullStats final)] else [])
             ++ [Summary (shortStats final)]
        else []))
  /\ ((verbosity <= 0)%Z ->
      snd (test c [] verbosity microAverage macroSum s) = s).
Proof.
  intros final.
  assert (test c [] verbosity microAverage macroSum s =
    (Ret (final, microAverage,
          (fun m => hash_add m (fullStats final)) <$> macroSum),
     State (heap_of s)
       (console s ++
        if (verbosity >? 0)%Z
        then (if (verbosity >? 2)%Z
              then [Text "FULL RESULTS:"; Dir (fullStats final)] else [])
             ++ [Summary (shortStats final)]
        else []))) as Hrun.
  { by apply (test_run c [] verbosity microAverage macroSum s
                newPrecisionRecall microAverage s). }
  split; [done|]. intros Hv. rewrite Hrun. simpl.
  assert ((verbosity >? 0)%Z = false) as -> by lia.
  destruct s. simpl. by rewrite app_nil_r.
Qed.

(** C2 (as amended). For every sample, [test] calls [classify] with the
    input alone and records the value the classifier returned as it is:
    the actual label set given to the recorder is the content of that
    value, a bare sequence as that sequence, a structure with [classes]
    and [explanations] as the whole structure. Nothing is unwrapped. *)
Theorem test_records_result_as_returned (c : C) verbosity (stats : R)
    microAverage smp s e s1 r h1 :
  normalizeClasses (output smp) s = (Ret (VArr e), s1) ->
  classify c (input smp) undefined (heap_of s1) = (Ret r, h1) ->
  let expected := LArr (elems h1 e) in
  let actual := snapshot h1 r in
  (exists out,
     test_body c verbosity (stats, microAverage) smp s =
       (Ret (fst (addCases stats expected actual (verbosity >? 2)%Z),
             (fun m => fst (addCases m expected actual false)) <$> microAverage),
        State h1 out))
  /\ match r with
     | VArr l => actual = LArr (elems h1 l)
     | VObj ps => actual = LObj (map (fun kv => (fst kv, snapshot h1 (snd kv))) ps)
     | VPrim p => actual = LPrim p
     end.
Proof.
  intros Hnorm Hcls expected actual. split.
  - eexists. by apply test_body_run.
  - by destruct r.
Qed.

(** C3. On a sample where the two sorted class sequences differ,
    [compare] prints the divergence line and then exactly one of the
    three follow-up lines: "Classifier1 is correct" when the sorted
    output of classifier1 equals the normalized expected sequence,
    "Classifier2 is correct" when that of classifier1 does not and that
    of classifier2 does, "both are incorrect" when neither does. The
    three cases exclude each other and leave no other. The sample is
    any sample of the dataset: [before] are the samples [compare] has
    gone through when it reaches it, [after] the ones still to come. *)
Theorem compare_divergence_verdict (c1 : C) (c2 : C') explain
    before smp after s0 s e s1 r1 h1 r2 h2 l1 l2 :
  compare c1 c2 before explain s0 = (Ret tt, s) ->
  normalizeClasses (output smp) s = (Ret (VArr e), s1) ->
  classify c1 (input smp) explain (heap_of s1) = (Ret r1, h1) ->
  classify c2 (input smp) explain h1 = (Ret r2, h2) ->
  unwraps_to explain r1 l1 ->
  unwraps_to explain r2 l2 ->
  let h := alter sort l2 (alter sort l1 h2) in
  isEqual h (VArr l1) (VArr l2) = false ->
  exists v,
    let reported :=
      State h (console s ++
        [Divergence (snapshot h (input smp))
           (snapshot h (if truthy explain then r1 else VArr l1))
           (snapshot h (if truthy explain then r2 else VArr l2));
         v]) in
    compare_body c1 c2 explain smp s = (Ret tt, reported) /\
    compare c1 c2 (before ++ smp :: after) explain s0
      = compare c1 c2 after explain reported /\
    (v = classifier1_correct \/ v = classifier2_correct \/ v = both_incorrect) /\
    (v = classifier1_correct <-> isEqual h (VArr l1) (VArr e) = true) /\
    (v = classifier2_correct <->
       isEqual h (VArr l1) (VArr e) = false /\
       isEqual h (VArr l2) (VArr e) = true) /\
    (v = both_incorrect <->
       isEqual h (VArr l1) (VArr e) = false /\
       isEqual h (VArr l2) (VArr e) = false).
Proof.
  intros Hbefore Hnorm Hc1 Hc2 Hu1 Hu2 h Hdiff.
  exists (verdict h (VArr e) (VArr l1) (VArr l2)). intros reported.
  assert (compare_body c1 c2 explain smp s = (Ret tt, reported)) as Hbody.
  { rewrite (compare_body_run c1 c2 explain smp s e s1 r1 h1 r2 h2 l1 l2) by done.
    fold h. by rewrite Hdiff, (normalizeClasses_console _ _ _ _ Hnorm). }
  split; [done|]. split.
  { by rewrite (compare_app c1 c2 before _ explain s0 s Hbefore),
       compare_cons, Hbody. }
  unfold verdict.
  destruct verdict_lines_distinct as (H12 & H13 & H23).
  destruct (isEqual h (VArr l1) (VArr e)), (isEqual h (VArr l2) (VArr e));
    split_and!; auto; split; try done; try (intros [? ?]; done); intros Heq;
    exfalso; (by apply H12) || (by apply H13) || (by apply H23)
    || (by apply H12; symmetry) || (by apply H13; symmetry) || (by apply H23; symmetry).
Qed.

(** C7. On a sample where the two sorted class sequences are equal
    element by element, [compare] prints nothing, whether or not the
    shared sequence equals the normalized expected sequence. *)
Theorem compare_agreement_silent (c1 : C) (c2 : C') explain smp s
    e s1 r1 h1 r2 h2 l1 l2 :
  normalizeClasses (output smp) s = (Ret (VArr e), s1) ->
  classify c1 (input smp) explain (heap_of s1) = (Ret r1, h1) ->
  classify c2 (input smp) explain h1 = (Ret r2, h2) ->
  unwraps_to explain r1 l1 ->
  unwraps_to explain r2 l2 ->
  let h := alter sort l2 (alter sort l1 h2) in
  isEqual h (VArr l1) (VArr l2) = true ->
  compare_body c1 c2 explain smp s = (Ret tt, State h (console s)).
Proof.
  intros Hnorm Hc1 Hc2 Hu1 Hu2 h Hsame.
  rewrite (compare_body_run c1 c2 explain smp s e s1 r1 h1 r2 h2 l1 l2) by done.
  fold h. rewrite Hsame, (normalizeClasses_console _ _ _ _ Hnorm).
  by rewrite app_nil_r.
Qed.

(** C8. In [testLite], for every sample: the expected output is
    normalized; the class sequence is the classifier's result, or its
    [classes] when it has them; that sequence is sorted; the mismatch
    line is printed exactly when [isEqual] finds the expected and the
    actual sequence different, which is inequality of the two ordered
    sequences when the classifier has left the array of the expected
    labels alone (it has no reference to it); the line carries the
    whole result when [explain] is truthy and the sorted classes
    otherwise; the pair is recorded in the local recorder whether or not
    the line was printed. Every iteration that runs to its end is of
    this kind. After the loop one summary line is printed. *)
Theorem testLite_spec :
  (forall (c : C) explain (stats : R) smp s e s1 r h1 l,
     normalizeClasses (output smp) s = (Ret (VArr e), s1) ->
     classify c (input smp) explain (heap_of s1) = (Ret r, h1) ->
     classes_at r l ->
     let h := alter sort l h1 in
     elems (heap_of s1) e = normalized (heap_of s) (output smp) /\
     elems h l = sort (elems h1 l) /\
     testLite_body c explain stats smp s =
       (Ret (fst (addCases stats (LArr (elems h e)) (LArr (elems h l)) false)),
        State h (console s ++
          if isEqual h (VArr e) (VArr l) then []
          else [Mismatch (snapshot h (input smp)) (LArr (elems h e))
                  (snapshot h (if truthy explain then r else VArr l))])) /\
     (h1 !! e = heap_of s1 !! e ->
      isEqual h (VArr e) (VArr l) = true <-> elems h l = elems h e))
  /\
  (forall (c : C) explain (stats : R) smp s stats' s',
     testLite_body c explain stats smp s = (Ret stats', s') ->
     exists e s1 r h1 l,
       normalizeClasses (output smp) s = (Ret (VArr e), s1) /\
       classify c (input smp) explain (heap_of s1) = (Ret r, h1) /\
       classes_at r l)
  /\
  (forall (c : C) dataset explain s (stats : R) s',
     for_each (testLite_body c explain) dataset newPrecisionRecall s
       = (Ret stats, s') ->
     testLite c dataset explain s =
       (Ret tt, State (heap_of s')
                  (console s' ++ [Summary (shortStats (calculateStats stats))]))).
Proof.
  split_and!.
  - intros c explain stats smp s e s1 r h1 l Hnorm Hcls Hat h. split_and!.
    + destruct (normalizeClasses_run (output smp) s) as (e' & h' & Hrun & _ & _ & He).
      rewrite Hrun in Hnorm. injection Hnorm as -> <-. simpl.
      by apply elems_lookup.
    + apply elems_alter_eq.
    + rewrite (testLite_body_run c explain stats smp s e s1 r h1 l) by done.
      by rewrite (normalizeClasses_console _ _ _ _ Hnorm).
    + intros Hkept. apply isEqual_flat.
      destruct (normalizeClasses_run (output smp) s) as (e' & h' & Hrun & _ & _ & He).
      rewrite Hrun in Hnorm. injection Hnorm as -> <-. simpl in Hkept.
      assert (Forall flat (elems h1 e)) as Hflat.
      { unfold elems. rewrite Hkept, He. apply normalized_flat. }
      destruct (decide (l = e)) as [->|Hne].
      * subst h. rewrite elems_alter_eq. by apply sort_flat.
      * subst h. by rewrite elems_alter_ne.
  - apply testLite_body_inv.
  - apply testLite_run.
Qed.

Lemma for_each_snoc {A S} (body : S -> A -> M S) before x acc s0 acc1 s acc2 s' :
  for_each body before acc s0 = (Ret acc1, s) ->
  body acc1 x s = (Ret acc2, s') ->
  for_each body (before ++ [x]) acc s0 = (Ret acc2, s').
Proof.
  intros Hbefore Hbody. rewrite for_each_app, Hbefore. simpl.
  unfold mbind, M_bind, bind. by rewrite Hbody.
Qed.

(** C9. [testLite] and [compare] sort in place the array the classifier
    returned, bare or as the [classes] of its result: when [testLite]
    or [compare] has gone through a sample, that array holds the
    elements it held, in sorted order, and no other array has changed
    since the classifier returned. [normalizeClasses] writes no array it
    was given: it returns a new array and every array of the heap, the
    argument among them, holds what it held. *)
Theorem sort_in_place_and_frame :
  (forall (c : C) explain before smp s0 (stats : R) s e s1 r h1 l,
     for_each (testLite_body c explain) before newPrecisionRecall s0
       = (Ret stats, s) ->
     normalizeClasses (output smp) s = (Ret (VArr e), s1) ->
     classify c (input smp) explain (heap_of s1) = (Ret r, h1) ->
     classes_at r l ->
     exists stats' h out,
       testLite_body c explain stats smp s = (Ret stats', State h out) /\
       testLite c (before ++ [smp]) explain s0
         = (Ret tt, State h (out ++ [Summary (shortStats (calculateStats stats'))])) /\
       h !! l = sort <$> h1 !! l /\
       Sorted sort_order (elems h l) /\
       elems h l ≡ₚ elems h1 l /\
       (forall l', l' <> l -> h !! l' = h1 !! l'))
  /\
  (forall (c1 : C) (c2 : C') explain before smp s0 s e s1 r1 h1 r2 h2 l1 l2,
     compare c1 c2 before explain s0 = (Ret tt, s) ->
     normalizeClasses (output smp) s = (Ret (VArr e), s1) ->
     classify c1 (input smp) explain (heap_of s1) = (Ret r1, h1) ->
     classify c2 (input smp) explain h1 = (Ret r2, h2) ->
     unwraps_to explain r1 l1 ->
     unwraps_to explain r2 l2 ->
     exists h out,
       compare_body c1 c2 explain smp s = (Ret tt, State h out) /\
       compare c1 c2 (before ++ [smp]) explain s0 = (Ret tt, State h out) /\
       elems h l1 = sort (elems h2 l1) /\
       elems h l2 = sort (elems h2 l2) /\
       Sorted sort_order (elems h l1) /\
       Sorted sort_order (elems h l2) /\
       elems h l1 ≡ₚ elems h2 l1 /\
       elems h l2 ≡ₚ elems h2 l2 /\
       (forall l', l' <> l1 -> l' <> l2 -> h !! l' = h2 !! l'))
  /\
  (forall (v : value) (s : state),
     exists l s1,
       normalizeClasses v s = (Ret (VArr l), s1) /\
       heap_of s !! l = None /\
       (forall l' xs, heap_of s !! l' = Some xs -> heap_of s1 !! l' = Some xs)).
Proof.
  split_and!.
  - intros c explain before smp s0 stats s e s1 r h1 l Hbefore Hnorm Hcls Hat.
    pose proof (testLite_body_run c explain stats smp s e s1 r h1 l Hnorm Hcls Hat)
      as Hbody. simpl in Hbody.
    do 3 eexists. split; [exact Hbody|]. split_and!.
    + by rewrite (testLite_run c (before ++ [smp]) explain s0 _ _
                    (for_each_snoc _ _ _ _ _ _ _ _ _ Hbefore Hbody)).
    + apply lookup_alter_eq.
    + rewrite elems_alter_eq. apply Sorted_sort.
    + rewrite elems_alter_eq. apply sort_Permutation.
    + intros l' Hne. by apply lookup_alter_ne.
  - intros c1 c2 explain before smp s0 s e s1 r1 h1 r2 h2 l1 l2
      Hbefore Hnorm Hc1 Hc2 Hu1 Hu2.
    pose proof (compare_body_run c1 c2 explain smp s e s1 r1 h1 r2 h2 l1 l2
                  Hnorm Hc1 Hc2 Hu1 Hu2) as Hbody. simpl in Hbody.
    assert (elems (alter sort l2 (alter sort l1 h2)) l1 = sort (elems h2 l1)) as H1.
    { destruct (decide (l2 = l1)) as [->|Hne].
      - by rewrite !elems_alter_eq, sort_idempotent.
      - by rewrite elems_alter_ne, elems_alter_eq. }
    assert (elems (alter sort l2 (alter sort l1 h2)) l2 = sort (elems h2 l2)) as H2.
    { destruct (decide (l1 = l2)) as [->|Hne].
      - by rewrite !elems_alter_eq, sort_idempotent.
      - by rewrite elems_alter_eq, elems_alter_ne. }
    do 2 eexists. split; [exact Hbody|]. split_and!.
    + by rewrite (compare_app c1 c2 before _ explain s0 s Hbefore),
         compare_cons, Hbody.
    + done.
    + done.
    + rewrite H1. apply Sorted_sort.
    + rewrite H2. apply Sorted_sort.
    + rewrite H1. apply sort_Permutation.
    + rewrite H2. apply sort_Permutation.
    + intros l' Hne1 Hne2. by rewrite !lookup_alter_ne.
  - intros v s.
    destruct (normalizeClasses_run v s) as (l & h' & Hrun & Hsub & Hfresh & _).
    exists l, (State h' (console s)). split_and!; [done..|].
    intros l' xs Hl'. simpl. by eapply lookup_weaken.
Qed.

(** The start and end lines of the two trainings. *)
Lemma trainAndCompare_run (factory1 : heap -> result C * heap)
    (factory2 : heap -> result C' * heap)
    trainSet testSet verbosity s c1 h1 c2 h2 c1' h3 c2' h4 :
  factory1 (heap_of s) = (Ret c1, h1) ->
  factory2 h1 = (Ret c2, h2) ->
  trainBatch c1 trainSet h2 = (Ret c1', h3) ->
  trainBatch c2 trainSet h3 = (Ret c2', h4) ->
  trainAndCompare factory1 factory2 trainSet testSet verbosity s =
    compare c1' c2' testSet (VPrim (PNum verbosity))
      (State h4
         (console s ++
          if (verbosity >? 0)%Z
          then [start_training true trainSet; end_training trainSet;
                start_training false trainSet; end_training trainSet]
          else [])).
Proof.
  destruct s as [h out]. intros Hf1 Hf2 Ht1 Ht2.
  unfold trainAndCompare. unfold_M. simpl in *.
  rewrite Hf1; simpl; rewrite Hf2; simpl.
  destruct (verbosity >? 0)%Z; simpl; rewrite Ht1; simpl; rewrite Ht2; simpl.
  - by rewrite <-!app_assoc.
  - by rewrite app_nil_r.
Qed.

(** C10. [trainAndCompare] creates and trains the two classifiers and
    then is [compare] on the trained classifiers and the test set, with
    its [verbosity] as the [explain] flag; it returns nothing. When
    [verbosity] is truthy, [compare] passes it to [classify] and takes
    the [classes] of each result: that is what [trainAndCompare] does
    with the first sample of the test set before it goes on with the
    others. *)
Theorem trainAndCompare_forwards_verbosity :
  (forall (factory1 : heap -> result C * heap)
          (factory2 : heap -> result C' * heap)
          trainSet testSet verbosity s c1 h1 c2 h2 c1' h3 c2' h4,
     factory1 (heap_of s) = (Ret c1, h1) ->
     factory2 h1 = (Ret c2, h2) ->
     trainBatch c1 trainSet h2 = (Ret c1', h3) ->
     trainBatch c2 trainSet h3 = (Ret c2', h4) ->
     trainAndCompare factory1 factory2 trainSet testSet verbosity s =
       compare c1' c2' testSet (VPrim (PNum verbosity))
         (State h4
            (console s ++
             if (verbosity >? 0)%Z
             then [start_training true trainSet; end_training trainSet;
                   start_training false trainSet; end_training trainSet]
             else [])))
  /\
  (forall (c1 : C) (c2 : C') verbosity smp s e s1 ps1 h1 ps2 h2 l1 l2,
     verbosity <> 0%Z ->
     normalizeClasses (output smp) s = (Ret (VArr e), s1) ->
     classify c1 (input smp) (VPrim (PNum verbosity)) (heap_of s1)
       = (Ret (VObj ps1), h1) ->
     classify c2 (input smp) (VPrim (PNum verbosity)) h1
       = (Ret (VObj ps2), h2) ->
     assoc "classes" ps1 = Some (VArr l1) ->
     assoc "classes" ps2 = Some (VArr l2) ->
     let h := alter sort l2 (alter sort l1 h2) in
     compare_body c1 c2 (VPrim (PNum verbosity)) smp s =
       (Ret tt,
        State h (console s ++
          if isEqual h (VArr l1) (VArr l2) then []
          else [Divergence (snapshot h (input smp))
                  (snapshot h (VObj ps1)) (snapshot h (VObj ps2));
                verdict h (VArr e) (VArr l1) (VArr l2)])))
  /\
  (forall (factory1 : heap -> result C * heap)
          (factory2 : heap -> result C' * heap)
          trainSet smp rest verbosity s c1 h1 c2 h2 c1' h3 c2' h4
          e s1 ps1 h5 ps2 h6 l1 l2,
     verbosity <> 0%Z ->
     factory1 (heap_of s) = (Ret c1, h1) ->
     factory2 h1 = (Ret c2, h2) ->
     trainBatch c1 trainSet h2 = (Ret c1', h3) ->
     trainBatch c2 trainSet h3 = (Ret c2', h4) ->
     let trained :=
       State h4
         (console s ++
          if (verbosity >? 0)%Z
          then [start_training true trainSet; end_training trainSet;
                start_training false trainSet; end_training trainSet]
          else []) in
     normalizeClasses (output smp) trained = (Ret (VArr e), s1) ->
     classify c1' (input smp) (VPrim (PNum verbosity)) (heap_of s1)
       = (Ret (VObj ps1), h5) ->
     classify c2' (input smp) (VPrim (PNum verbosity)) h5
       = (Ret (VObj ps2), h6) ->
     assoc "classes" ps1 = Some (VArr l1) ->
     assoc "classes" ps2 = Some (VArr l2) ->
     let h := alter sort l2 (alter sort l1 h6) in
     trainAndCompare factory1 factory2 trainSet (smp :: rest) verbosity s =
       compare c1' c2' rest (VPrim (PNum verbosity))
         (State h (console trained ++
            if isEqual h (VArr l1) (VArr l2) then []
            else [Divergence (snapshot h (input smp))
                    (snapshot h (VObj ps1)) (snapshot h (VObj ps2));
                  verdict h (VArr e) (VArr l1) (VArr l2)])))
  /\
  (forall (c1 : C) (c2 : C') testSet explain s (r : unit) s',
     compare c1 c2 testSet explain s = (Ret r, s') -> r = tt).
Proof.
  assert (forall (c1 : C) (c2 : C') verbosity smp s e s1 ps1 h1 ps2 h2 l1 l2,
     verbosity <> 0%Z ->
     normalizeClasses (output smp) s = (Ret (VArr e), s1) ->
     classify c1 (input smp) (VPrim (PNum verbosity)) (heap_of s1)
       = (Ret (VObj ps1), h1) ->
     classify c2 (input smp) (VPrim (PNum verbosity)) h1
       = (Ret (VObj ps2), h2) ->
     assoc "classes" ps1 = Some (VArr l1) ->
     assoc "classes" ps2 = Some (VArr l2) ->
     let h := alter sort l2 (alter sort l1 h2) in
     compare_body c1 c2 (VPrim (PNum verbosity)) smp s =
       (Ret tt,
        State h (console s ++
          if isEqual h (VArr l1) (VArr l2) then []
          else [Divergence (snapshot h (input smp))
                  (snapshot h (VObj ps1)) (snapshot h (VObj ps2));
                verdict h (VArr e) (VArr l1) (VArr l2)]))) as Hbody.
  { intros c1 c2 verbosity smp s e s1 ps1 h1 ps2 h2 l1 l2
      Hv Hnorm Hc1 Hc2 Hps1 Hps2 h.
    assert (truthy (VPrim (PNum verbosity)) = true) as Htruthy.
    { simpl. apply negb_true_iff, Z.eqb_neq. done. }
    rewrite (compare_body_run c1 c2 _ smp s e s1 (VObj ps1) h1 (VObj ps2) h2 l1 l2);
      try done; try (by apply unwraps_field).
    fold h. by rewrite Htruthy, (normalizeClasses_console _ _ _ _ Hnorm). }
  split_and!.
  - apply trainAndCompare_run.
  - exact Hbody.
  - intros f1 f2 trainSet smp rest verbosity s c1 h1 c2 h2 c1' h3 c2' h4
      e s1 ps1 h5 ps2 h6 l1 l2 Hv Hf1 Hf2 Ht1 Ht2 trained Hnorm Hc1 Hc2 Hps1 Hps2 h.
    rewrite (trainAndCompare_run f1 f2 trainSet (smp :: rest) verbosity s
               c1 h1 c2 h2 c1' h3 c2' h4) by done.
    fold trained. rewrite compare_cons.
    by rewrite (Hbody c1' c2' verbosity smp trained e s1 ps1 h5 ps2 h6 l1 l2).
  - by intros c1 c2 testSet explain s [] s' _.
Qed.

(** ** Order of the test set *)

(** The loop of [test] for such a classifier: the loop-carried recorders
    are a fold of [record_case] over the test set. *)
Lemma test_loop_content (c : C) (answer : value -> label) verbosity
    (h0 : heap) testSet :
  Forall (answers h0 c answer) testSet ->
  forall (acc : R * option R) s,
    h0 ⊆ heap_of s ->
    exists s',
      for_each (test_body c verbosity) testSet acc s
        = (Ret (foldl (record_case h0 answer verbosity) acc testSet), s') /\
      h0 ⊆ heap_of s'.
Proof.
  induction 1 as [|smp testSet [Hout Hcls] _ IH]; intros acc s Hsub.
  { by exists s. }
  destruct (normalizeClasses_run (output smp) s) as (e & h' & Hrun & Hsub' & _ & He).
  assert (h0 ⊆ h') as Hsub0 by (by etrans).
  destruct (Hcls h' Hsub0) as (r & h1 & Hc & Hsub1 & Hr).
  assert (h0 ⊆ h1) as Hsub01 by (by etrans).
  destruct acc as [stats micro].
  pose proof (test_body_run c verbosity stats micro smp s e _ r h1 Hrun Hc) as Hbody.
  simpl in Hbody.
  assert (elems h1 e = normalized h0 (output smp)) as Hexp.
  { rewrite (elems_lookup h1 e (normalized (heap_of s) (output smp))).
    - by apply normalized_weaken.
    - by eapply lookup_weaken. }
  rewrite Hexp, Hr in Hbody.
  match type of Hbody with _ = (_, ?t) =>
    destruct (IH (record_case h0 answer verbosity (stats, micro) smp) t Hsub01)
      as (s' & Hloop & Hs')
  end.
  exists s'. split; [|done]. simpl.
  unfold mbind, M_bind, bind at 1. by rewrite Hbody.
Qed.

Lemma record_case_comm (h0 : heap) (answer : value -> label) verbosity :
  (forall (r : R) e1 a1 e2 a2 w,
     fst (addCases (fst (addCases r e1 a1 w)) e2 a2 w)
     = fst (addCases (fst (addCases r e2 a2 w)) e1 a1 w)) ->
  forall (acc : R * option R) x y,
    record_case h0 answer verbosity (record_case h0 answer verbosity acc x) y
    = record_case h0 answer verbosity (record_case h0 answer verbosity acc y) x.
Proof.
  intros Hcomm [stats micro] x y. unfold record_case. simpl. f_equal.
  - apply Hcomm.
  - destruct micro as [m|]; simpl; [|done]. f_equal. apply Hcomm.
Qed.

(** C4. When recording two cases in either order leaves the recorder in
    the same state, [test] on a test set and on any permutation of it
    returns the same finalized statistics, and leaves the caller's
    [microAverage] and [macroSum] the same; only the console and the
    locations of the new arrays can differ. The classifier is one whose
    answer to an input does not depend on what was classified before:
    it may allocate the array it returns and read the arrays of the
    heap; it changes none. *)
Theorem test_order_independent (c : C) (answer : value -> label)
    testSet testSet' verbosity (microAverage : option R) macroSum s :
  (forall (r : R) e1 a1 e2 a2 w,
     fst (addCases (fst (addCases r e1 a1 w)) e2 a2 w)
     = fst (addCases (fst (addCases r e2 a2 w)) e1 a1 w)) ->
  Forall (answers (heap_of s) c answer) testSet ->
  testSet ≡ₚ testSet' ->
  exists stats microAverage' macroSum' s1 s2,
    test c testSet verbosity microAverage macroSum s
      = (Ret (stats, microAverage', macroSum'), s1) /\
    test c testSet' verbosity microAverage macroSum s
      = (Ret (stats, microAverage', macroSum'), s2).
Proof.
  intros Hcomm Hanswers Hperm.
  assert (Forall (answers (heap_of s) c answer) testSet') as Hanswers'.
  { by rewrite <-Hperm. }
  destruct (test_loop_content c answer verbosity (heap_of s) testSet Hanswers
              (newPrecisionRecall, microAverage) s) as (s1 & Hloop1 & _); [done|].
  destruct (test_loop_content c answer verbosity (heap_of s) testSet' Hanswers'
              (newPrecisionRecall, microAverage) s) as (s2 & Hloop2 & _); [done|].
  rewrite <-(foldl_Permutation _ _ _ (record_case_comm _ answer verbosity Hcomm) Hperm)
    in Hloop2.
  destruct (foldl (record_case (heap_of s) answer verbosity)
              (newPrecisionRecall, microAverage) testSet) as [stats micro'].
  do 5 eexists. split.
  - by apply test_run.
  - by apply test_run.
Qed.

End Evaluation.

(** ** Examples *)

Section Witnesses.
Import Examples.

(** [test] on the empty test set with verbosity 1 prints the summary. *)
Lemma test_empty_prints_summary :
  console (snd (test (R := tally) always_A [] 1 None None state0))
    = [Summary "0/0"] /\
  console (snd (test (R := tally) always_A [] 1 None None state0))
    <> console state0.
Proof. split; [by vm_compute|]. by vm_compute. Qed.

Lemma test_empty_testSet_witness :
  snd (test (R := tally) always_A [] 0 None None state0) = state0.
Proof.
  apply (test_empty_testSet (R := tally) always_A 0 None None state0). lia.
Defined.

(** [test] records a wrapped result as it is, not its [classes]. *)
Lemma test_keeps_result_wrapped :
  recorded_actuals
    (test (R := journal) explained_A [sample_x] 0 None None state0)
    = [LObj [("classes", LArr [str "A"]); ("explanations", str "why")]] /\
  recorded_actuals
    (test (R := journal) explained_A [sample_x] 0 None None state0)
    <> [LArr (elems heap0 2)].
Proof. split; [by vm_compute|]. by vm_compute. Qed.

Lemma test_records_result_as_returned_witness :
  snapshot (heap_of state_x) (explained_A (input sample_x) undefined)
    = LObj [("classes", LArr [str "A"]); ("explanations", str "why")].
Proof.
  destruct (test_records_result_as_returned (R := journal) explained_A 0
              newPrecisionRecall None sample_x state0 5 state_x
              (explained_A (input sample_x) undefined) (heap_of state_x))
    as [_ Hactual].
  - by vm_compute.
  - done.
  - rewrite Hactual. by vm_compute.
Defined.

Lemma compare_divergence_verdict_witness :
  console (snd (compare always_A always_BA [sample_x; sample_y]
                  (VPrim (PNum 0)) state0))
    = [Divergence (str "x") (LArr [str "A"]) (LArr [str "A"; str "B"]);
       classifier1_correct;
       Divergence (str "y") (LArr [str "A"]) (LArr [str "A"; str "B"]);
       classifier2_correct].
Proof.
  destruct (compare_divergence_verdict always_A always_BA (VPrim (PNum 0))
              [] sample_x [sample_y] state0 state0 5 state_x
              (VArr 2) (heap_of state_x) (VArr 1) (heap_of state_x) 2 1)
    as (v & _ & Hrun & _ & Hv & _).
  - done.
  - by vm_compute.
  - done.
  - done.
  - by apply unwraps_bare.
  - by apply unwraps_bare.
  - by vm_compute.
  - simpl app in Hrun. rewrite Hrun.
    assert (v = classifier1_correct) as -> by (apply Hv; by vm_compute).
    by vm_compute.
Defined.

Lemma compare_agreement_silent_witness :
  isEqual (heap_of state_y) (VArr 2) (VArr 4) = false /\
  compare_body always_A always_A (VPrim (PNum 0)) sample_y state0
    = (Ret tt, State (heap_of state_y) []).
Proof.
  split; [by vm_compute|].
  rewrite (compare_agreement_silent always_A always_A (VPrim (PNum 0))
             sample_y state0 4 state_y (VArr 2) (heap_of state_y)
             (VArr 2) (heap_of state_y) 2 2).
  - by vm_compute.
  - by vm_compute.
  - done.
  - done.
  - by apply unwraps_bare.
  - by apply unwraps_bare.
  - by vm_compute.
Defined.

Lemma testLite_spec_witness :
  testLite_body (R := tally) always_BA (VPrim (PNum 0)) newPrecisionRecall
    sample_x state0
    = (Ret (Tally 1 0),
       State (alter sort 1%positive (heap_of state_x))
         [Mismatch (str "x") (LArr [str "A"]) (LArr [str "A"; str "B"])]) /\
  testLite (R := tally) always_BA [sample_x] (VPrim (PNum 0)) state0
    = (Ret tt,
       State (alter sort 1%positive (heap_of state_x))
         [Mismatch (str "x") (LArr [str "A"]) (LArr [str "A"; str "B"]);
          Summary "0/1"]).
Proof.
  destruct (testLite_spec (R := tally) (C := value -> value -> value))
    as (Hbody & _ & Hloop).
  split.
  - destruct (Hbody always_BA (VPrim (PNum 0)) newPrecisionRecall sample_x
                state0 5%positive state_x (VArr 1) (heap_of state_x) 1%positive)
      as (_ & _ & Hrun & _).
    + by vm_compute.
    + done.
    + constructor.
    + rewrite Hrun. by vm_compute.
  - rewrite (Hloop always_BA [sample_x] (VPrim (PNum 0)) state0 (Tally 1 0)
               (State (alter sort 1%positive (heap_of state_x))
                  [Mismatch (str "x") (LArr [str "A"]) (LArr [str "A"; str "B"])])).
    + by vm_compute.
    + by vm_compute.
Defined.

Lemma sort_in_place_and_frame_witness :
  heap0 !! 1%positive = Some [str "B"; str "A"] /\
  heap_of (snd (testLite (R := tally) always_BA [sample_x] (VPrim (PNum 0)) state0))
    !! 1%positive = Some [str "A"; str "B"] /\
  elems (heap_of (snd (compare always_A always_BA [sample_x]
                         (VPrim (PNum 0)) state0))) 1
    = [str "A"; str "B"] /\
  (exists l s1,
     normalizeClasses (VArr 1) state0 = (Ret (VArr l), s1) /\
     heap_of s1 !! 1%positive = Some [str "B"; str "A"]).
Proof.
  destruct (sort_in_place_and_frame (R := tally)
              (C := value -> value -> value) (C' := value -> value -> value))
    as (HtestLite & Hcompare & Hnormalize).
  split; [done|]. split_and!.
  - destruct (HtestLite always_BA (VPrim (PNum 0)) [] sample_x state0
                newPrecisionRecall state0 5%positive state_x (VArr 1)
                (heap_of state_x) 1%positive)
      as (stats' & h & out & _ & Hrun & Hl & _).
    + done.
    + by vm_compute.
    + done.
    + by constructor.
    + simpl app in Hrun. rewrite Hrun.
      etrans; [exact Hl|]. by vm_compute.
  - destruct (Hcompare always_A always_BA (VPrim (PNum 0)) [] sample_x state0 state0
                5%positive state_x (VArr 2) (heap_of state_x)
                (VArr 1) (heap_of state_x) 2%positive 1%positive)
      as (h & out & _ & Hrun & _ & Hl2 & _).
    + done.
    + by vm_compute.
    + done.
    + done.
    + by apply unwraps_bare.
    + by apply unwraps_bare.
    + simpl app in Hrun. rewrite Hrun.
      etrans; [exact Hl2|]. by vm_compute.
  - destruct (Hnormalize (VArr 1) state0) as (l & s1 & Hrun & _ & Hframe).
    exists l, s1. split; [done|]. apply Hframe. by vm_compute.
Defined.

Lemma trainAndCompare_forwards_verbosity_witness :
  console (snd (trainAndCompare (fun h => (Ret (explains 2), h))
                  (fun h => (Ret (explains 1), h))
                  (TrainSet [sample_x] None) [sample_x; sample_y] 1 state0))
  =    [StartTraining true 1 None; EndTraining 1 None;
        StartTraining false 1 None; EndTraining 1 None;
        Divergence (str "x")
          (LObj [("classes", LArr [str "A"]); ("explanations", str "why")])
          (LObj [("classes", LArr [str "A"; str "B"]); ("explanations", str "why")]);
        classifier1_correct;
        Divergence (str "y")
          (LObj [("classes", LArr [str "A"]); ("explanations", str "why")])
          (LObj [("classes", LArr [str "A"; str "B"]); ("explanations", str "why")]);
        classifier2_correct].
Proof.
  destruct (trainAndCompare_forwards_verbosity
              (C := value -> value -> value) (C' := value -> value -> value))
    as (_ & _ & Hfirst & _).
  rewrite (Hfirst (fun h => (Ret (explains 2), h)) (fun h => (Ret (explains 1), h))
             (TrainSet [sample_x] None) sample_x [sample_y] 1%Z state0
             (explains 2) heap0 (explains 1) heap0
             (explains 2) heap0 (explains 1) heap0
             5%positive
             (snd (normalizeClasses (output sample_x)
                     (State heap0 [StartTraining true 1 None; EndTraining 1 None;
                                   StartTraining false 1 None; EndTraining 1 None])))
             [("classes", VArr 2); ("explanations", VPrim (PStr "why"))]
             (heap_of state_x)
             [("classes", VArr 1); ("explanations", VPrim (PStr "why"))]
             (heap_of state_x) 2%positive 1%positive);
    by vm_compute.
Defined.

Lemma test_order_independent_witness :
  fst (test (R := tally) (Allocating [str "A"]) [sample_x; sample_y] 2
         (Some (Tally 5 5)) None state0)
  = fst (test (R := tally) (Allocating [str "A"]) [sample_y; sample_x] 2
           (Some (Tally 5 5)) None state0).
Proof.
  assert (forall smp, valid heap0 (output smp) ->
            answers heap0 (Allocating [str "A"]) (fun _ => LArr [str "A"]) smp)
    as Hanswer.
  { intros smp Hvalid. split; [done|]. intros h _.
    do 2 eexists. split; [reflexivity|]. split.
    - apply insert_subseteq, not_elem_of_dom, is_fresh.
    - simpl. unfold elems. by rewrite lookup_insert_eq. }
  destruct (test_order_independent (R := tally) (Allocating [str "A"])
              (fun _ => LArr [str "A"])
              [sample_x; sample_y] [sample_y; sample_x] 2
              (Some (Tally 5 5)) None state0)
    as (stats & micro & macro & s1 & s2 & Hrun1 & Hrun2).
  - intros r e1 a1 e2 a2 w. simpl.
    by destruct (deep_eq e1 a1), (deep_eq e2 a2).
  - apply Forall_cons_2; [apply Hanswer; exact I|].
    apply Forall_cons_2; [apply Hanswer; by eexists|]. apply Forall_nil_2.
  - apply perm_swap.
  - by rewrite Hrun1, Hrun2.
Defined.

Lemma normalizeClasses_permutation_witness :
  exists r1 s1 r2 s2,
    normalizeClasses (VArr 1) state0 = (Ret (VArr r1), s1) /\
    normalizeClasses (VArr 3) state0 = (Ret (VArr r2), s2) /\
    elems (heap_of s1) r1 = elems (heap_of s2) r2 /\
    Sorted sort_order (elems (heap_of s1) r1).
Proof.
  apply (normalizeClasses_permutation state0 1 3).
  apply perm_swap.
Defined.

End Witnesses.

(** ** Further properties of the module *)

(** *** writeDataset *)

Lemma writeDataset_run (dataset : list sample) (separator : string) (s : state) :
  writeDataset dataset separator s =
    (Ret tt,
     State (heap_of s)
       (console s ++ map (dataset_line (heap_of s) separator) dataset)).
Proof.
  unfold writeDataset. destruct s as [h out]. simpl.
  revert out. induction dataset as [|smp dataset IH]; intros out; simpl.
  { by rewrite app_nil_r. }
  unfold_M. simpl. fold (@for_each sample unit).
  unfold_M. rewrite IH. by rewrite <-app_assoc.
Qed.

(** X1. On the values of the model (finite data without cycles)
    [writeDataset] prints one line per sample, in the order of the
    dataset, and nothing else, and it writes no array. Writing two
    datasets one after the other prints what writing their
    concatenation prints. *)
Theorem writeDataset_lines (dataset dataset' : list sample) (separator : string)
    (s : state) :
  console (snd (writeDataset dataset separator s))
    = console s ++ map (dataset_line (heap_of s) separator) dataset /\
  heap_of (snd (writeDataset dataset separator s)) = heap_of s /\
  length (console (snd (writeDataset dataset separator s)))
    = (length (console s) + length dataset)%nat /\
  console (snd (writeDataset (dataset ++ dataset') separator s))
    = console (snd (writeDataset dataset' separator
                      (snd (writeDataset dataset separator s)))).
Proof.
  rewrite !writeDataset_run. simpl. split_and!.
  - done.
  - done.
  - by rewrite length_app, length_map.
  - by rewrite map_app, app_assoc.
Qed.

Lemma ToString_singleton (p : prim) :
  p <> PUndefined -> p <> PNull ->
  ToString (LArr [LPrim p]) = ToString (LPrim p).
Proof. by destruct p. Qed.

(** X2. [writeDataset] does not tell a scalar output from an array of
    that one label: two datasets that differ only in that print the
    same lines. It holds for every label that is a boolean, a number or
    a string. *)
Theorem writeDataset_scalar_as_singleton (d1 d2 : list sample)
    (separator : string) (s : state) :
  Forall2 (fun a b =>
             input a = input b /\
             (output a = output b \/
              exists p l, p <> PUndefined /\ p <> PNull /\
                          output a = VPrim p /\ output b = VArr l /\
                          elems (heap_of s) l = [LPrim p])) d1 d2 ->
  writeDataset d1 separator s = writeDataset d2 separator s.
Proof.
  intros Hrel. rewrite !writeDataset_run. do 3 f_equal.
  induction Hrel as [|a b d1 d2 [Hin Hout] _ IH]; simpl; [done|].
  f_equal; [|done]. unfold dataset_line. rewrite Hin.
  destruct Hout as [->|(p & l & Hp1 & Hp2 & -> & -> & Hl)]; [done|].
  simpl snapshot. rewrite Hl. by rewrite ToString_singleton.
Qed.

(** *** normalizeClasses *)

(** X3. A label that is not an array normalizes as the array of that one
    label does. *)
Theorem normalizeClasses_scalar_as_singleton (v : value) (l : loc) (s : state) :
  isArray v = false ->
  elems (heap_of s) l = [snapshot (heap_of s) v] ->
  exists r1 s1 r2 s2,
    normalizeClasses v s = (Ret (VArr r1), s1) /\
    normalizeClasses (VArr l) s = (Ret (VArr r2), s2) /\
    elems (heap_of s1) r1 = elems (heap_of s2) r2.
Proof.
  intros Hv Hl.
  destruct (normalizeClasses_run v s) as (r1 & h1 & Hrun1 & _ & _ & Hr1).
  destruct (normalizeClasses_run (VArr l) s) as (r2 & h2 & Hrun2 & _ & _ & Hr2).
  exists r1, (State h1 (console s)), r2, (State h2 (console s)).
  split_and!; [done..|]. simpl.
  rewrite (elems_lookup _ _ _ Hr1), (elems_lookup _ _ _ Hr2).
  unfold normalized. rewrite Hl. by destruct v.
Qed.

(** X4. [normalizeClasses] removes no duplicate and adds nothing: the
    array it returns holds the stringified labels of its argument, each
    as often as the argument holds it, so it is as long as the
    argument. *)
Theorem normalizeClasses_keeps_duplicates (l : loc) (s : state) :
  exists r s1,
    normalizeClasses (VArr l) s = (Ret (VArr r), s1) /\
    elems (heap_of s1) r ≡ₚ map stringifyClass (elems (heap_of s) l) /\
    length (elems (heap_of s1) r) = length (elems (heap_of s) l).
Proof.
  destruct (normalizeClasses_run (VArr l) s) as (r & h1 & Hrun & _ & _ & Hr).
  exists r, (State h1 (console s)). split; [done|]. simpl.
  rewrite (elems_lookup _ _ _ Hr). unfold normalized. split.
  - apply sort_Permutation.
  - by rewrite sort_length, length_map.
Qed.

(** The text of an integer is its decimal numeral. *)
Lemma digit_value_char (d : N) :
  (d < 10)%N -> digit_value (pretty_N_char d) = Some d.
Proof.
  intros Hd.
  assert (d = 0 \/ d = 1 \/ d = 2 \/ d = 3 \/ d = 4 \/ d = 5 \/ d = 6 \/
          d = 7 \/ d = 8 \/ d = 9)%N as Hcases by lia.
  by repeat (destruct Hcases as [->|Hcases]; [done|]); subst.
Qed.

Lemma decimal_value_pretty_go (x : N) :
  forall s, decimal_value 0 (pretty_N_go x s) = decimal_value x s.
Proof.
  induction (N.lt_wf_0 x) as [x _ IH]. intros s.
  destruct (decide (x = 0)%N) as [->|Hx].
  { by rewrite pretty_N_go_0. }
  rewrite pretty_N_go_step by lia.
  rewrite IH by (apply N.div_lt; lia). simpl.
  rewrite digit_value_char by (apply N.mod_lt; lia).
  f_equal. rewrite (N.div_mod x 10) at 3 by done. lia.
Qed.

Lemma decimal_value_dash acc s :
  decimal_value acc (String "-" s) = None.
Proof. done. Qed.

Lemma parse_integer_number_to_string (n : Z) :
  parse_integer (number_to_string n) = Some n.
Proof.
  unfold number_to_string, pretty, pretty_Z.
  destruct n as [|p|p]; [done| |].
  - unfold pretty, pretty_positive, pretty, pretty_N.
    destruct (decide (N.pos p = 0)%N) as [|_]; [done|].
    pose proof (decimal_value_pretty_go (N.pos p) EmptyString) as Hval.
    change (decimal_value (N.pos p) EmptyString) with (Some (N.pos p)) in Hval.
    unfold parse_integer.
    destruct (pretty_N_go (N.pos p) EmptyString) as [|c s]; [done|].
    destruct (Ascii.eqb_spec c "-") as [->|_].
    + by rewrite decimal_value_dash in Hval.
    + by rewrite Hval.
  - unfold pretty, pretty_positive, pretty, pretty_N.
    destruct (decide (N.pos p = 0)%N) as [|_]; [done|].
    pose proof (decimal_value_pretty_go (N.pos p) EmptyString) as Hval.
    change (decimal_value (N.pos p) EmptyString) with (Some (N.pos p)) in Hval.
    change (parse_integer (String "-" (pretty_N_go (N.pos p) EmptyString))
            = Some (Z.neg p)).
    unfold parse_integer. simpl Ascii.eqb. cbv iota.
    destruct (pretty_N_go (N.pos p) EmptyString) as [|c s]; [done|].
    by rewrite Hval.
Qed.

(** X5. Normalisation does not tell a safe integer from the string of
    its decimal digits: the text of each number is the decimal numeral
    of that number, and an array of numbers and the array of their
    texts normalize to the same sequence. *)
Theorem normalizeClasses_number_as_text (ns : list Z) (l1 l2 : loc) (s : state) :
  Forall safe_integer ns ->
  elems (heap_of s) l1 = map (fun n => LPrim (PNum n)) ns ->
  elems (heap_of s) l2 = map (fun n => LPrim (PStr (number_to_string n))) ns ->
  Forall (fun n => parse_integer (number_to_string n) = Some n) ns /\
  exists r1 s1 r2 s2,
    normalizeClasses (VArr l1) s = (Ret (VArr r1), s1) /\
    normalizeClasses (VArr l2) s = (Ret (VArr r2), s2) /\
    elems (heap_of s1) r1 = elems (heap_of s2) r2.
Proof.
  intros _ Hl1 Hl2. split.
  { apply Forall_forall. intros n _. apply parse_integer_number_to_string. }
  destruct (normalizeClasses_run (VArr l1) s) as (r1 & h1 & Hrun1 & _ & _ & Hr1).
  destruct (normalizeClasses_run (VArr l2) s) as (r2 & h2 & Hrun2 & _ & _ & Hr2).
  exists r1, (State h1 (console s)), r2, (State h2 (console s)).
  split_and!; [done..|]. simpl.
  rewrite (elems_lookup _ _ _ Hr1), (elems_lookup _ _ _ Hr2).
  unfold normalized. rewrite Hl1, Hl2. f_equal.
  by rewrite !map_map.
Qed.

Lemma JSON_stringify_defined (x : label) :
  x <> LPrim PUndefined -> is_Some (JSON_stringify x).
Proof. destruct x as [[]| |]; try done; by eexists. Qed.

Lemma stringifyClass_string (x : label) :
  x <> LPrim PUndefined -> isString (stringifyClass x) = true.
Proof.
  intros Hx. unfold stringifyClass. destruct (isString x) eqn:Hstr; [done|].
  by destruct (JSON_stringify_defined x Hx) as [t ->].
Qed.

(** X6. [JSON.stringify] has a result for every label but [undefined],
    so when no label of the argument is [undefined] every element of
    the array [normalizeClasses] returns is a string. *)
Theorem normalizeClasses_strings (l : loc) (s : state) :
  Forall (fun x => x <> LPrim PUndefined) (elems (heap_of s) l) ->
  exists r s1,
    normalizeClasses (VArr l) s = (Ret (VArr r), s1) /\
    Forall (fun x => isString x = true) (elems (heap_of s1) r).
Proof.
  intros Hdef.
  destruct (normalizeClasses_run (VArr l) s) as (r & h1 & Hrun & _ & _ & Hr).
  exists r, (State h1 (console s)). split; [done|]. simpl.
  rewrite (elems_lookup _ _ _ Hr). unfold normalized.
  rewrite sort_Permutation. apply Forall_map.
  eapply Forall_impl; [done|]. intros x. apply stringifyClass_string.
Qed.

Section Coverage.

Context {R : Type} `{!PrecisionRecall R} `{!Hash}.
Context {C C' : Type} `{!Classifier C} `{!Classifier C'}.

(** *** testLite *)

Lemma testLite_loop_console (c : C) explain dataset :
  forall (stats : R) s stats' s',
    for_each (testLite_body c explain) dataset stats s = (Ret stats', s') ->
    exists lines,
      console s' = console s ++ lines /\
      length lines <= length dataset /\
      Forall (fun ln => exists i e g, ln = Mismatch i e g) lines.
Proof.
  induction dataset as [|smp dataset IH]; intros stats s stats' s' Hloop.
  { injection Hloop as <- <-. exists []. by rewrite app_nil_r. }
  simpl in Hloop. unfold mbind, M_bind, bind in Hloop.
  destruct (testLite_body c explain stats smp s) as [[stats1|err] s1] eqn:Hbody;
    [|done].
  destruct (testLite_body_inv _ _ _ _ _ _ _ Hbody)
    as (e & s0 & r & h1 & l & Hnorm & Hcls & Hat).
  rewrite (testLite_body_run c explain stats smp s e s0 r h1 l) in Hbody by done.
  injection Hbody as <- <-.
  apply IH in Hloop as (lines & Hout & Hlen & Hall). simpl in Hout.
  rewrite (normalizeClasses_console _ _ _ _ Hnorm), <-app_assoc in Hout.
  eexists. split; [done|].
  destruct (isEqual _ _ _); simpl.
  - split; [lia|done].
  - split; [lia|]. constructor; [by do 3 eexists|done].
Qed.

(** X7. A run of [testLite] that returns has printed at most one line
    per sample, each of them a mismatch line, and then the summary line
    and nothing after it. *)
Theorem testLite_output (c : C) dataset explain s (u : unit) s' :
  testLite (R := R) c dataset explain s = (Ret u, s') ->
  exists lines summary,
    console s' = console s ++ lines ++ [Summary summary] /\
    length lines <= length dataset /\
    Forall (fun ln => exists i e g, ln = Mismatch i e g) lines.
Proof.
  unfold testLite. unfold mbind, M_bind, bind.
  destruct (for_each (testLite_body c explain) dataset newPrecisionRecall s)
    as [[stats|err] s1] eqn:Hloop; [|done].
  unfold log. intros [= _ <-].
  apply testLite_loop_console in Hloop as (lines & Hout & Hlen & Hall).
  exists lines, (shortStats (calculateStats stats)). simpl.
  by rewrite Hout, <-app_assoc.
Qed.

(** X8. An exception ends [testLite] at once: when an iteration throws,
    [testLite] throws the same error in the state that iteration left;
    the samples after it are not classified and no summary is printed. *)
Theorem testLite_aborts (c : C) explain before smp after s (stats : R) s1 e s2 :
  for_each (testLite_body c explain) before newPrecisionRecall s
    = (Ret stats, s1) ->
  testLite_body c explain stats smp s1 = (Throw e, s2) ->
  testLite c (before ++ smp :: after) explain s = (Throw e, s2).
Proof.
  intros Hbefore Hbody. unfold testLite. unfold mbind, M_bind, bind.
  rewrite for_each_app, Hbefore. simpl. unfold mbind, M_bind, bind.
  by rewrite Hbody.
Qed.

(** X9. [testLite] throws a [TypeError] on a classification result that
    is neither an array nor an object whose [classes] are an array (a
    string, [null], an object with empty or missing [classes]): such a
    value has no [sort]. Nothing is printed and nothing is recorded for
    the sample. *)
Theorem testLite_body_TypeError (c : C) explain (stats : R) smp s e s1 r h1 :
  normalizeClasses (output smp) s = (Ret (VArr e), s1) ->
  classify c (input smp) explain (heap_of s1) = (Ret r, h1) ->
  (forall l, ~ classes_at r l) ->
  testLite_body c explain stats smp s = (Throw TypeError, State h1 (console s)).
Proof.
  intros Hnorm Hcls Hnot. unfold testLite_body.
  pose proof (normalizeClasses_console _ _ _ _ Hnorm) as Hout.
  unfold mbind, M_bind, bind at 1. rewrite Hnorm.
  destruct s1 as [h0 out]. simpl in Hout. subst out.
  unfold bind at 1, call at 1. simpl in *. rewrite Hcls.
  destruct r as [p|l|ps].
  - by destruct p as [| |[]|n|t]; unfold_M; simpl;
      try destruct (negb _).
  - destruct (Hnot l). constructor.
  - unfold_M. simpl.
    destruct (assoc "classes" ps) as [[p|l|qs]|] eqn:Hps; simpl; try done.
    + by destruct p as [| |[]|n|t]; simpl; try destruct (negb _).
    + destruct (Hnot l). by constructor.
Qed.

(** X10. The expected labels are stringified and the actual ones are
    not: when the class sequence of the classifier holds a label that
    is not a string (a number, a boolean, an object), [testLite] prints
    the mismatch line, whatever the expected output is. *)
Theorem testLite_nonstring_label_mismatch (c : C) explain (stats : R) smp s
    e s1 r h1 l x :
  normalizeClasses (output smp) s = (Ret (VArr e), s1) ->
  classify c (input smp) explain (heap_of s1) = (Ret r, h1) ->
  classes_at r l ->
  h1 !! e = heap_of s1 !! e ->
  x ∈ elems h1 l ->
  ~ flat x ->
  exists stats' h i expected got,
    testLite_body c explain stats smp s =
      (Ret stats', State h (console s ++ [Mismatch i expected got])).
Proof.
  intros Hnorm Hcls Hat Hkept Hx Hflat.
  rewrite (testLite_body_run c explain stats smp s e s1 r h1 l) by done.
  rewrite (normalizeClasses_console _ _ _ _ Hnorm).
  set (h := alter sort l h1).
  assert (Forall flat (elems h1 e)) as He.
  { destruct (normalizeClasses_run (output smp) s) as (e' & h' & Hrun & _ & _ & He).
    rewrite Hrun in Hnorm. injection Hnorm as -> <-. simpl in Hkept.
    unfold elems. rewrite Hkept, He. apply normalized_flat. }
  assert (l <> e) as Hne.
  { intros ->. rewrite Forall_forall in He. by apply Hflat, He. }
  assert (isEqual h (VArr e) (VArr l) = false) as ->.
  { destruct (isEqual h (VArr e) (VArr l)) eqn:Heq; [|done].
    apply isEqual_flat in Heq.
    - exfalso. apply Hflat. rewrite Forall_forall in He. apply He.
      subst h. rewrite (elems_alter_ne h1 l e Hne) in Heq. rewrite <-Heq.
      by rewrite elems_alter_eq, sort_Permutation.
    - subst h. by rewrite (elems_alter_ne h1 l e Hne). }
  by do 5 eexists.
Qed.

(** *** compare *)

Lemma unwrap_throw explain r s err t :
  (if truthy explain then get_classes r else mret r) s = (Throw err, t) ->
  err = TypeError /\ t = s.
Proof.
  destruct (truthy explain); [|done].
  by destruct r as [[]|l|ps]; unfold_M; intros [= <- <-].
Qed.

Lemma array_sort_throw a s err t :
  array_sort a s = (Throw err, t) -> err = TypeError /\ t = s.
Proof. by destruct a as [p|l|ps]; unfold_M; intros [= <- <-]. Qed.

(** X11. [compare] relies on the classifiers honouring the flag: when
    [explain] is truthy and a classifier returns a bare array, or
    [explain] is falsy and it returns a wrapped result, the iteration
    throws a [TypeError] and prints nothing. *)
Theorem compare_body_TypeError (c1 : C) (c2 : C') explain smp s e s1 r1 h1 r2 h2 :
  normalizeClasses (output smp) s = (Ret (VArr e), s1) ->
  classify c1 (input smp) explain (heap_of s1) = (Ret r1, h1) ->
  classify c2 (input smp) explain h1 = (Ret r2, h2) ->
  (forall l, ~ unwraps_to explain r1 l) \/ (forall l, ~ unwraps_to explain r2 l) ->
  exists h,
    compare_body c1 c2 explain smp s = (Throw TypeError, State h (console s)).
Proof.
  intros Hnorm Hc1 Hc2 Hnot. unfold compare_body.
  pose proof (normalizeClasses_console _ _ _ _ Hnorm) as Hout.
  unfold mbind, M_bind, bind at 1. rewrite Hnorm.
  destruct s1 as [h0 out]. simpl in Hout. subst out.
  unfold bind at 1, call at 1. simpl in *. rewrite Hc1.
  unfold bind at 1, call at 1. simpl. rewrite Hc2.
  unfold bind at 1.
  destruct ((if truthy explain then get_classes r1 else mret r1)
              (State h2 (console s))) as [[a1|err] t1] eqn:Hu1.
  2: { apply unwrap_throw in Hu1 as [-> ->]. by eexists. }
  apply unwrap_inv in Hu1 as [-> Hu1].
  unfold bind at 1.
  destruct ((if truthy explain then get_classes r2 else mret r2)
              (State h2 (console s))) as [[a2|err] t2] eqn:Hu2.
  2: { apply unwrap_throw in Hu2 as [-> ->]. by eexists. }
  apply unwrap_inv in Hu2 as [-> Hu2].
  unfold bind at 1.
  destruct (array_sort a1 (State h2 (console s))) as [[[]|err] t1] eqn:Hs1.
  2: { apply array_sort_throw in Hs1 as [-> ->]. by eexists. }
  pose proof Hs1 as Hs1'. apply array_sort_inv in Hs1' as [l1 ->].
  injection Hs1 as <-.
  unfold bind at 1.
  destruct (array_sort a2 _) as [[[]|err] t2] eqn:Hs2.
  2: { apply array_sort_throw in Hs2 as [-> ->]. by eexists. }
  apply array_sort_inv in Hs2 as [l2 ->].
  destruct Hnot as [Hnot|Hnot]; [destruct (Hnot l1)|destruct (Hnot l2)]; auto.
Qed.

Lemma compare_loop_console (c1 : C) (c2 : C') explain dataset :
  forall s (u : unit) s',
    for_each (fun _ smp => compare_body c1 c2 explain smp) dataset tt s
      = (Ret u, s') ->
    exists pairs : list (line * line),
      console s' = console s ++ flat_map (fun p => [fst p; snd p]) pairs /\
      length pairs <= length dataset /\
      Forall (fun p =>
                (exists i a b, fst p = Divergence i a b) /\
                (snd p = classifier1_correct \/ snd p = classifier2_correct \/
                 snd p = both_incorrect)) pairs.
Proof.
  induction dataset as [|smp dataset IH]; intros s u s' Hloop.
  { injection Hloop as _ <-. exists []. simpl. by rewrite app_nil_r. }
  simpl in Hloop. unfold mbind, M_bind, bind in Hloop.
  destruct (compare_body c1 c2 explain smp s) as [[[]|err] s1] eqn:Hbody; [|done].
  destruct (compare_body_inv _ _ _ _ _ _ _ Hbody)
    as (e & s0 & r1 & h1 & r2 & h2 & l1 & l2 & Hnorm & Hc1 & Hc2 & Hu1 & Hu2).
  rewrite (compare_body_run c1 c2 explain smp s e s0 r1 h1 r2 h2 l1 l2) in Hbody
    by done.
  injection Hbody as <-.
  apply IH in Hloop as (pairs & Hout & Hlen & Hall). simpl in Hout.
  rewrite (normalizeClasses_console _ _ _ _ Hnorm), <-app_assoc in Hout.
  destruct (isEqual _ (VArr l1) (VArr l2)); simpl in Hout.
  - exists pairs. split; [done|]. split; [simpl; lia|done].
  - eexists ((_, _) :: pairs). split; [exact Hout|]. split; [simpl; lia|].
    constructor; [|done]. simpl. split; [by do 3 eexists|].
    unfold verdict. destruct (isEqual _ _ _); [auto|].
    destruct (isEqual _ _ _); auto.
Qed.

(** X12. A run of [compare] that returns has printed, for each sample,
    nothing or two lines: a divergence line followed by one of the
    three verdict lines. [compare] prints no summary. *)
Theorem compare_output (c1 : C) (c2 : C') dataset explain s (u : unit) s' :
  compare c1 c2 dataset explain s = (Ret u, s') ->
  exists pairs : list (line * line),
    console s' = console s ++ flat_map (fun p => [fst p; snd p]) pairs /\
    length pairs <= length dataset /\
    Forall (fun p =>
              (exists i a b, fst p = Divergence i a b) /\
              (snd p = classifier1_correct \/ snd p = classifier2_correct \/
               snd p = both_incorrect)) pairs.
Proof. apply compare_loop_console. Qed.

(** *** test *)

(** What an iteration of [test] does, whatever the classifier does. *)
Lemma test_body_cases (c : C) verbosity (stats : R) micro smp s :
  exists e h0,
    normalizeClasses (output smp) s = (Ret (VArr e), State h0 (console s)) /\
    heap_of s ⊆ h0 /\
    match classify c (input smp) undefined h0 with
    | (Ret r, h1) =>
        let expected := LArr (elems h1 e) in
        let actual := snapshot h1 r in
        let added := addCases stats expected actual (verbosity >? 2)%Z in
        test_body c verbosity (stats, micro) smp s =
          (Ret (fst added,
                (fun m => fst (addCases m expected actual false)) <$> micro),
           State h1 (console s ++
             if (verbosity >? 1)%Z && (0 <? length (snd added))%nat
             then [Explanations (snapshot h1 (input smp)) (snd added)]
             else []))
    | (Throw err, h1) =>
        test_body c verbosity (stats, micro) smp s
          = (Throw err, State h1 (console s))
    end.
Proof.
  destruct (normalizeClasses_run (output smp) s) as (e & h0 & Hnorm & Hsub & _).
  exists e, h0. split; [done|]. split; [done|].
  destruct (classify c (input smp) undefined h0) as [[r|err] h1] eqn:Hcls.
  - by apply (test_body_run c verbosity stats micro smp s e
                (State h0 (console s)) r h1).
  - unfold test_body. unfold mbind, M_bind, bind at 1. rewrite Hnorm.
    unfold bind at 1, call at 1. simpl. by rewrite Hcls.
Qed.

Lemma test_body_console (c : C) verbosity (acc : R * option R) smp s res s' :
  (verbosity <= 1)%Z ->
  test_body c verbosity acc smp s = (res, s') -> console s' = console s.
Proof.
  intros Hv. destruct acc as [stats micro].
  destruct (test_body_cases c verbosity stats micro smp s) as (e & h0 & _ & _ & Hrun).
  destruct (classify c (input smp) undefined h0) as [[r|err] h1];
    simpl in Hrun; rewrite Hrun; intros [= _ <-]; simpl; [|done].
  assert ((verbosity >? 1)%Z = false) as -> by lia. simpl. by rewrite app_nil_r.
Qed.

(** X13. With [verbosity <= 1] [test] prints no per-sample line: a run
    that returns has printed the summary line when [verbosity] is 1 and
    nothing when it is lower, and a run that throws has printed
    nothing. *)
Theorem test_quiet (c : C) testSet verbosity (microAverage : option R)
    macroSum s :
  (verbosity <= 1)%Z ->
  console (snd (test c testSet verbosity microAverage macroSum s)) =
    console s ++
    match fst (test c testSet verbosity microAverage macroSum s) with
    | Ret (final, _, _) =>
        if (verbosity >? 0)%Z then [Summary (shortStats final)] else []
    | Throw _ => []
    end.
Proof.
  intros Hv.
  pose proof (for_each_invariant (test_body c verbosity)
    (fun _ s' => console s' = console s) (fun s' => console s' = console s)) as Hinv.
  specialize (Hinv
    (fun acc x t acc' t' Ht Hb => eq_trans (test_body_console c _ _ _ _ _ _ Hv Hb) Ht)
    (fun acc x t e t' Ht Hb => eq_trans (test_body_console c _ _ _ _ _ _ Hv Hb) Ht)
    testSet (newPrecisionRecall, microAverage) s eq_refl).
  unfold test. unfold mbind, M_bind, bind.
  destruct (for_each (test_body c verbosity) testSet
              (newPrecisionRecall, microAverage) s) as [[acc|err] s1]; simpl.
  - assert ((verbosity >? 2)%Z = false) as Hv2 by lia.
    unfold_M. destruct (verbosity >? 0)%Z; simpl.
    + rewrite Hv2. simpl. by rewrite Hinv.
    + by rewrite Hinv, app_nil_r.
  - by rewrite Hinv, app_nil_r.
Qed.

Lemma test_body_heap (c : C) verbosity (acc : R * option R) smp s res s' :
  (forall i h, snd (classify c i undefined h) = h) ->
  test_body c verbosity acc smp s = (res, s') -> heap_of s ⊆ heap_of s'.
Proof.
  intros Hpure. destruct acc as [stats micro].
  destruct (test_body_cases c verbosity stats micro smp s) as (e & h0 & _ & Hsub & Hrun).
  pose proof (Hpure (input smp) h0) as Hh.
  destruct (classify c (input smp) undefined h0) as [[r|err] h1];
    simpl in Hrun, Hh; subst h1; rewrite Hrun; by intros [= _ <-].
Qed.

(** X14. [test] writes no array of its own: when the classifier leaves
    the heap as it is, every array holds after [test] what it held
    before, whether [test] returns or throws. Unlike [testLite] and
    [compare], [test] does not sort what the classifier returns. *)
Theorem test_writes_no_array (c : C) testSet verbosity
    (microAverage : option R) macroSum s :
  (forall i h, snd (classify c i undefined h) = h) ->
  forall l xs,
    heap_of s !! l = Some xs ->
    heap_of (snd (test c testSet verbosity microAverage macroSum s)) !! l
      = Some xs.
Proof.
  intros Hpure l xs Hl.
  pose proof (for_each_invariant (test_body c verbosity)
    (fun _ s' => heap_of s ⊆ heap_of s') (fun s' => heap_of s ⊆ heap_of s')) as Hinv.
  specialize (Hinv
    (fun acc x t acc' t' Ht Hb =>
       transitivity Ht (test_body_heap c _ _ _ _ _ _ Hpure Hb))
    (fun acc x t e t' Ht Hb =>
       transitivity Ht (test_body_heap c _ _ _ _ _ _ Hpure Hb))
    testSet (newPrecisionRecall, microAverage) s (reflexivity _)).
  eapply lookup_weaken; [done|].
  unfold test. unfold mbind, M_bind, bind.
  destruct (for_each (test_body c verbosity) testSet
              (newPrecisionRecall, microAverage) s) as [[acc|err] s1]; simpl;
    [|done].
  unfold_M. destruct (verbosity >? 0)%Z; simpl; [|done].
  by destruct (verbosity >? 2)%Z.
Qed.

Lemma test_body_Ret (c : C) verbosity (stats : R) micro smp s acc' s' :
  test_body c verbosity (stats, micro) smp s = (Ret acc', s') ->
  exists expected actual,
    acc' = (fst (addCases stats expected actual (verbosity >? 2)%Z),
            (fun m => fst (addCases m expected actual false)) <$> micro).
Proof.
  destruct (test_body_cases c verbosity stats micro smp s) as (e & h0 & _ & _ & Hrun).
  destruct (classify c (input smp) undefined h0) as [[r|err] h1];
    simpl in Hrun; rewrite Hrun; [|done].
  intros [= <- _]. by do 2 eexists.
Qed.

(** The loop of [test] and its end, read backwards. *)
Lemma test_Ret (c : C) testSet verbosity (micro : option R) macro s final micro' macro' s' :
  test c testSet verbosity micro macro s = (Ret (final, micro', macro'), s') ->
  exists stats s1,
    for_each (test_body c verbosity) testSet (newPrecisionRecall, micro) s
      = (Ret (stats, micro'), s1) /\
    final = calculateStats stats /\
    macro' = (fun m => hash_add m (fullStats final)) <$> macro.
Proof.
  unfold test. unfold mbind, M_bind, bind.
  destruct (for_each (test_body c verbosity) testSet (newPrecisionRecall, micro) s)
    as [[[stats micro1]|err] s1]; [|done]. simpl.
  destruct ((when (verbosity >? 0)%Z _) s1) as [[[]|err] s2] eqn:Hout.
  - intros [= <- <- <- _]. by exists stats, s1.
  - exfalso. revert Hout. unfold_M.
    destruct (verbosity >? 0)%Z; [|done]. by destruct (verbosity >? 2)%Z.
Qed.

(** X15. [microAverage] pools what [currentStats] records: with
    [verbosity <= 2], a [microAverage] that is new when [test] starts is
    at the end a recorder whose finalization is the statistics [test]
    returns. *)
Theorem test_microAverage_mirrors (c : C) testSet verbosity macroSum s
    (final : R) microAverage' macroSum' s' :
  (verbosity <= 2)%Z ->
  test c testSet verbosity (Some newPrecisionRecall) macroSum s
    = (Ret (final, microAverage', macroSum'), s') ->
  exists pooled, microAverage' = Some pooled /\ final = calculateStats pooled.
Proof.
  intros Hv Hrun.
  apply test_Ret in Hrun as (stats & s1 & Hloop & -> & _).
  assert (forall (acc : R * option R) x t acc' t',
            snd acc = Some (fst acc) ->
            test_body c verbosity acc x t = (Ret acc', t') ->
            snd acc' = Some (fst acc')) as Hret.
  { intros [st mi] x t acc' t' Hacc Hbody. simpl in Hacc. subst mi.
    apply test_body_Ret in Hbody as (expected & actual & ->). simpl.
    by assert ((verbosity >? 2)%Z = false) as -> by lia. }
  pose proof (for_each_invariant (test_body c verbosity)
    (fun acc _ => snd acc = Some (fst acc)) (fun _ => True) Hret
    (fun _ _ _ _ _ _ _ => I) testSet
    (newPrecisionRecall, Some newPrecisionRecall) s eq_refl) as Hinv.
  rewrite Hloop in Hinv. by exists stats.
Qed.

(** X16. A run of [test] that returns hands back the caller's [macroSum]
    with the full statistics of this run merged into it, once; with no
    [macroSum] or no [microAverage] there is none afterwards either. *)
Theorem test_macroSum_merged (c : C) testSet verbosity (microAverage : option R)
    macroSum s final microAverage' macroSum' s' :
  test c testSet verbosity microAverage macroSum s
    = (Ret (final, microAverage', macroSum'), s') ->
  macroSum' = (fun m => hash_add m (fullStats final)) <$> macroSum /\
  (is_Some microAverage' <-> is_Some microAverage).
Proof.
  intros Hrun. apply test_Ret in Hrun as (stats & s1 & Hloop & -> & ->).
  split; [done|].
  assert (forall (acc : R * option R) x t acc' t',
            (is_Some (snd acc) <-> is_Some microAverage) ->
            test_body c verbosity acc x t = (Ret acc', t') ->
            (is_Some (snd acc') <-> is_Some microAverage)) as Hret.
  { intros [st mi] x t acc' t' Hacc Hbody. simpl in Hacc.
    apply test_body_Ret in Hbody as (expected & actual & ->). simpl.
    rewrite <-Hacc. by rewrite fmap_is_Some. }
  pose proof (for_each_invariant (test_body c verbosity)
    (fun acc _ => is_Some (snd acc) <-> is_Some microAverage) (fun _ => True) Hret
    (fun _ _ _ _ _ _ _ => I) testSet
    (newPrecisionRecall, microAverage) s (reflexivity _)) as Hinv.
  by rewrite Hloop in Hinv.
Qed.

(** *** trainAndTest and trainAndCompare *)

(** X17. [trainAndTest] is [test] on the classifier the factory made
    and [trainBatch] trained on the training set: it returns what
    [test] returns, and before the lines of [test] it has printed the
    start line and the end line when [verbosity > 0], and the training
    set between them when [verbosity > 2]. *)
Theorem trainAndTest_delegates (factory : heap -> result C * heap)
    trainSet testSet verbosity (microAverage : option R) macroSum s c h1 c' h2 :
  factory (heap_of s) = (Ret c, h1) ->
  trainBatch c trainSet h1 = (Ret c', h2) ->
  trainAndTest factory trainSet testSet verbosity microAverage macroSum s =
    test c' testSet verbosity microAverage macroSum
      (State h2
         (console s ++
          (if (verbosity >? 0)%Z then [start_training true trainSet] else []) ++
          (if (verbosity >? 2)%Z
           then [Dir (LArr (map (sample_snapshot h1) (samples trainSet)))]
           else []) ++
          (if (verbosity >? 0)%Z then [end_training trainSet] else []))).
Proof.
  intros Hf Ht. destruct s as [h out]. unfold trainAndTest. unfold_M.
  simpl in *. rewrite Hf. simpl.
  destruct (verbosity >? 0)%Z; simpl; destruct (verbosity >? 2)%Z; simpl;
    rewrite Ht; simpl; by rewrite <-?app_assoc, ?app_nil_r.
Qed.

(** X18. When the factory throws, [trainAndTest] throws the same error
    and has printed nothing. When [trainBatch] throws, [trainAndTest]
    throws the same error after the start line (and the training set
    when [verbosity > 2]); the end line is not printed and the test set
    is not evaluated. *)
Theorem trainAndTest_errors (factory : heap -> result C * heap)
    trainSet testSet verbosity (microAverage : option R) macroSum s :
  (forall e h1,
     factory (heap_of s) = (Throw e, h1) ->
     trainAndTest factory trainSet testSet verbosity microAverage macroSum s
       = (Throw e, State h1 (console s)))
  /\
  (forall c h1 e h2,
     factory (heap_of s) = (Ret c, h1) ->
     trainBatch c trainSet h1 = (Throw e, h2) ->
     trainAndTest factory trainSet testSet verbosity microAverage macroSum s
       = (Throw e,
          State h2
            (console s ++
             (if (verbosity >? 0)%Z then [start_training true trainSet] else []) ++
             (if (verbosity >? 2)%Z
              then [Dir (LArr (map (sample_snapshot h1) (samples trainSet)))]
              else [])))).
Proof.
  destruct s as [h out]. split.
  - intros e h1 Hf. unfold trainAndTest. unfold_M. simpl in *. by rewrite Hf.
  - intros c h1 e h2 Hf Ht. unfold trainAndTest. unfold_M. simpl in *.
    rewrite Hf. simpl.
    destruct (verbosity >? 0)%Z; simpl; destruct (verbosity >? 2)%Z; simpl;
      rewrite Ht; simpl; by rewrite <-?app_assoc, ?app_nil_r.
Qed.

(** X19. [trainAndCompare] makes both classifiers before it trains
    either: when the second factory throws, the first classifier has
    not been trained and nothing has been printed. When training the
    first classifier throws, the second one is not trained and only the
    first start line has been printed. *)
Theorem trainAndCompare_errors (factory1 : heap -> result C * heap)
    (factory2 : heap -> result C' * heap) trainSet testSet verbosity s c1 h1 :
  factory1 (heap_of s) = (Ret c1, h1) ->
  (forall e h2,
     factory2 h1 = (Throw e, h2) ->
     trainAndCompare factory1 factory2 trainSet testSet verbosity s
       = (Throw e, State h2 (console s)))
  /\
  (forall c2 h2 e h3,
     factory2 h1 = (Ret c2, h2) ->
     trainBatch c1 trainSet h2 = (Throw e, h3) ->
     trainAndCompare factory1 factory2 trainSet testSet verbosity s
       = (Throw e,
          State h3
            (console s ++
             if (verbosity >? 0)%Z then [start_training true trainSet] else []))).
Proof.
  intros Hf1. destruct s as [h out]. split.
  - intros e h2 Hf2. unfold trainAndCompare. unfold_M. simpl in *.
    rewrite Hf1. simpl. by rewrite Hf2.
  - intros c2 h2 e h3 Hf2 Ht. unfold trainAndCompare. unfold_M. simpl in *.
    rewrite Hf1. simpl. rewrite Hf2. simpl.
    destruct (verbosity >? 0)%Z; simpl; rewrite Ht; simpl;
      by rewrite ?app_nil_r.
Qed.

(** *** Aliasing *)

Lemma label_ind_nested (P : label -> Prop) :
  (forall p, P (LPrim p)) ->
  (forall xs, Forall P xs -> P (LArr xs)) ->
  (forall ps, Forall (fun kv => P (snd kv)) ps -> P (LObj ps)) ->
  forall x, P x.
Proof.
  intros Hp Ha Ho. fix IH 1. intros [p|xs|ps].
  - apply Hp.
  - apply Ha. induction xs as [|x xs IHxs]; constructor; [apply IH|apply IHxs].
  - apply Ho. induction ps as [|[k v] ps IHps]; constructor; [apply IH|apply IHps].
Qed.

Lemma distinct_keys_LArr xs :
  distinct_keys (LArr xs) <-> Forall distinct_keys xs.
Proof.
  simpl. induction xs as [|x xs IH]; [by split|].
  rewrite Forall_cons, IH. done.
Qed.

Lemma distinct_keys_LObj ps :
  distinct_keys (LObj ps) <->
  NoDup (map fst ps) /\ Forall (fun kv => distinct_keys (snd kv)) ps.
Proof.
  simpl. apply and_iff_compat_l.
  induction ps as [|kv ps IH]; [by split|].
  rewrite Forall_cons, IH. done.
Qed.

Lemma assoc_NoDup {A} (ps : list (string * A)) k x :
  NoDup (map fst ps) -> (k, x) ∈ ps -> assoc k ps = Some x.
Proof.
  induction ps as [|[k' v] ps IH]; simpl; intros Hnd Hin.
  { by apply not_elem_of_nil in Hin. }
  apply NoDup_cons in Hnd as [Hk' Hnd].
  apply elem_of_cons in Hin as [[= -> ->]|Hin].
  { by rewrite String.eqb_refl. }
  destruct (String.eqb_spec k k') as [->|Hne]; [|by apply IH].
  destruct Hk'. apply list_elem_of_fmap. by exists (k', x).
Qed.

Lemma deep_eq_arrays xs ys :
  Forall2 (fun x y => deep_eq x y = true) xs ys ->
  deep_eq (LArr xs) (LArr ys) = true.
Proof.
  simpl. induction 1 as [|x y xs ys Hxy _ IH]; [done|].
  by rewrite Hxy, IH.
Qed.

Lemma deep_eq_objects ps qs :
  length ps = length qs ->
  Forall (fun kv => exists y, assoc (fst kv) qs = Some y /\
                              deep_eq (snd kv) y = true) ps ->
  deep_eq (LObj ps) (LObj qs) = true.
Proof.
  intros Hlen Hall. simpl. rewrite Hlen, Nat.eqb_refl. simpl. clear Hlen.
  induction Hall as [|[k x] ps (y & Hy & Hxy) _ IH]; [done|].
  simpl in Hy, Hxy. by rewrite Hy, Hxy, IH.
Qed.

(** [isEqual] finds a value equal to itself. *)
Lemma deep_eq_refl x : distinct_keys x -> deep_eq x x = true.
Proof.
  induction x as [p|xs IH|ps IH] using label_ind_nested; intros Hx.
  - by apply prim_eqb_eq.
  - apply distinct_keys_LArr in Hx. apply deep_eq_arrays.
    induction IH as [|x xs Hx' _ IHxs]; [constructor|].
    apply Forall_cons in Hx as [Hx1 Hx2]. constructor; auto.
  - apply distinct_keys_LObj in Hx as [Hnd Hx].
    apply deep_eq_objects; [done|].
    rewrite Forall_forall in IH, Hx. apply Forall_forall. intros [k x] Hin.
    exists x. split.
    + by apply assoc_NoDup.
    + apply (IH (k, x) Hin), (Hx (k, x) Hin).
Qed.

(** X20. When the two classifiers return the same array (one cached
    array, or one classifier given twice), [compare] sorts it and
    prints nothing for the sample, whatever the expected output is. *)
Theorem compare_same_array_silent (c1 : C) (c2 : C') explain smp s
    e s1 r1 h1 r2 h2 l :
  normalizeClasses (output smp) s = (Ret (VArr e), s1) ->
  classify c1 (input smp) explain (heap_of s1) = (Ret r1, h1) ->
  classify c2 (input smp) explain h1 = (Ret r2, h2) ->
  unwraps_to explain r1 l ->
  unwraps_to explain r2 l ->
  Forall distinct_keys (elems h2 l) ->
  exists h,
    compare_body c1 c2 explain smp s = (Ret tt, State h (console s)) /\
    elems h l = sort (elems h2 l).
Proof.
  intros Hnorm Hc1 Hc2 Hu1 Hu2 Hkeys.
  rewrite (compare_body_run c1 c2 explain smp s e s1 r1 h1 r2 h2 l l) by done.
  rewrite (normalizeClasses_console _ _ _ _ Hnorm).
  set (h := alter sort l (alter sort l h2)).
  assert (elems h l = sort (elems h2 l)) as Hl.
  { subst h. by rewrite !elems_alter_eq, sort_idempotent. }
  assert (isEqual h (VArr l) (VArr l) = true) as ->.
  { unfold isEqual. apply deep_eq_refl. simpl snapshot.
    apply distinct_keys_LArr. by rewrite Hl, sort_Permutation. }
  exists h. by rewrite app_nil_r.
Qed.

Lemma map_stringifyClass_strings xs :
  Forall (fun x => isString x = true) xs -> map stringifyClass xs = xs.
Proof.
  intros Hxs. apply map_stringifyClass_of_flat.
  eapply Forall_impl; [done|]. by intros [[]| |].
Qed.

(** X21. [testLite] can write the dataset: when the classifier returns
    the very array that is the sample's [output], that array is sorted
    in place. With string labels the expected sequence is then the
    sorted array itself and no mismatch is printed. *)
Theorem testLite_sorts_aliased_output (c : C) explain (stats : R) smp s
    o e s1 :
  output smp = VArr o ->
  is_Some (heap_of s !! o) ->
  Forall (fun x => isString x = true) (elems (heap_of s) o) ->
  normalizeClasses (output smp) s = (Ret (VArr e), s1) ->
  classify c (input smp) explain (heap_of s1) = (Ret (VArr o), heap_of s1) ->
  exists stats' h,
    testLite_body c explain stats smp s = (Ret stats', State h (console s)) /\
    elems h o = sort (elems (heap_of s) o).
Proof.
  intros Hout Ho Hstr Hnorm Hcls.
  rewrite (testLite_body_run c explain stats smp s e s1 (VArr o) (heap_of s1) o)
    by (done || constructor).
  rewrite (normalizeClasses_console _ _ _ _ Hnorm).
  destruct (normalizeClasses_run (output smp) s) as (e' & h' & Hrun & Hsub & Hfresh & He).
  rewrite Hrun in Hnorm. injection Hnorm as -> <-. simpl.
  set (h := alter sort o h').
  assert (o <> e) as Hne.
  { intros ->. rewrite Hfresh in Ho. by destruct Ho. }
  assert (elems h' o = elems (heap_of s) o) as Ho' by (by apply elems_weaken).
  assert (elems h o = sort (elems (heap_of s) o)) as Hsorted.
  { subst h. by rewrite elems_alter_eq, Ho'. }
  assert (elems h e = sort (elems (heap_of s) o)) as Hexp.
  { subst h. rewrite (elems_alter_ne h' o e Hne), (elems_lookup _ _ _ He).
    unfold normalized. rewrite Hout. by rewrite map_stringifyClass_strings. }
  assert (isEqual h (VArr e) (VArr o) = true) as ->.
  { apply isEqual_flat; [|congruence].
    rewrite Hexp. apply sort_flat.
    eapply Forall_impl; [done|]. by intros [[]| |]. }
  do 2 eexists. by rewrite app_nil_r.
Qed.

End Coverage.

(** *** Examples *)

Section CoverageWitnesses.
Import Examples.

Lemma writeDataset_scalar_as_singleton_witness :
  writeDataset [sample_x] ", " state0
  = writeDataset [Sample (VPrim (PStr "x")) (VArr 2)] ", " state0.
Proof.
  apply writeDataset_scalar_as_singleton.
  constructor; [|constructor]. split; [done|]. right.
  exists (PStr "A"), 2%positive. by split_and!.
Defined.

Lemma normalizeClasses_scalar_as_singleton_witness :
  exists r1 s1 r2 s2,
    normalizeClasses (VPrim (PStr "A")) state0 = (Ret (VArr r1), s1) /\
    normalizeClasses (VArr 2) state0 = (Ret (VArr r2), s2) /\
    elems (heap_of s1) r1 = elems (heap_of s2) r2.
Proof. by apply (normalizeClasses_scalar_as_singleton (VPrim (PStr "A")) 2 state0). Defined.

Lemma normalizeClasses_number_as_text_witness :
  parse_integer (number_to_string (-120)) = Some (-120)%Z /\
  exists r1 s1 r2 s2,
    normalizeClasses (VArr 7)
      (State (<[7%positive := [LPrim (PNum (-120))]]>
                (<[8%positive := [str "-120"]]> heap0)) [])
      = (Ret (VArr r1), s1) /\
    normalizeClasses (VArr 8)
      (State (<[7%positive := [LPrim (PNum (-120))]]>
                (<[8%positive := [str "-120"]]> heap0)) [])
      = (Ret (VArr r2), s2) /\
    elems (heap_of s1) r1 = elems (heap_of s2) r2.
Proof.
  destruct (normalizeClasses_number_as_text [(-120)%Z] 7 8
              (State (<[7%positive := [LPrim (PNum (-120))]]>
                        (<[8%positive := [str "-120"]]> heap0)) []))
    as [Hparse Hsame].
  - apply Forall_cons_2; [|apply Forall_nil_2]. unfold safe_integer. lia.
  - done.
  - done.
  - split; [|done]. by apply Forall_cons_1 in Hparse as [Hparse _].
Defined.

Lemma normalizeClasses_strings_witness :
  exists r s1,
    normalizeClasses (VArr 7) state1 = (Ret (VArr r), s1) /\
    Forall (fun x => isString x = true) (elems (heap_of s1) r).
Proof.
  apply (normalizeClasses_strings 7 state1).
  by apply Forall_cons_2; [|apply Forall_nil_2].
Defined.

Lemma testLite_output_witness :
  exists lines summary,
    console (snd (testLite (R := tally) always_A [sample_x; sample_y]
                    (VPrim (PNum 0)) state0))
      = console state0 ++ lines ++ [Summary summary] /\
    length lines <= 2 /\
    Forall (fun ln => exists i e g, ln = Mismatch i e g) lines.
Proof.
  apply (testLite_output (R := tally) always_A [sample_x; sample_y]
           (VPrim (PNum 0)) state0 tt).
  by vm_compute.
Defined.

Lemma testLite_aborts_witness :
  exists s2,
    testLite (R := tally) knows_x ([sample_x] ++ sample_y :: [sample_z])
      (VPrim (PNum 0)) state0
    = (Throw TypeError, s2) /\
    console s2 = [].
Proof.
  eexists. split.
  - apply (testLite_aborts (R := tally) knows_x (VPrim (PNum 0)) [sample_x]
             sample_y [sample_z] state0 (Tally 1 1)
             (snd (testLite_body (R := tally) knows_x (VPrim (PNum 0))
                     newPrecisionRecall sample_x state0))).
    + by vm_compute.
    + by vm_compute.
  - done.
Defined.

Lemma testLite_body_TypeError_witness :
  testLite_body (R := tally) scalar_A (VPrim (PNum 0)) newPrecisionRecall
    sample_x state0
  = (Throw TypeError, State (heap_of state_x) (console state0)).
Proof.
  apply (testLite_body_TypeError (R := tally) scalar_A (VPrim (PNum 0))
           newPrecisionRecall sample_x state0 5 state_x (VPrim (PStr "A"))).
  - by vm_compute.
  - done.
  - intros l Hl. inversion Hl.
Defined.

Lemma testLite_nonstring_label_mismatch_witness :
  exists stats' h i expected got,
    testLite_body (R := tally) always_1 (VPrim (PNum 0)) newPrecisionRecall
      (Sample (VPrim (PStr "n")) (VPrim (PNum 1))) state1
    = (Ret stats', State h (console state1 ++ [Mismatch i expected got])).
Proof.
  apply (testLite_nonstring_label_mismatch (R := tally) always_1 (VPrim (PNum 0))
           newPrecisionRecall (Sample (VPrim (PStr "n")) (VPrim (PNum 1))) state1
           9 (snd (normalizeClasses (VPrim (PNum 1)) state1))
           (VArr 7) (heap_of (snd (normalizeClasses (VPrim (PNum 1)) state1)))
           7 (LPrim (PNum 1))).
  - by vm_compute.
  - done.
  - constructor.
  - done.
  - vm_compute. apply list_elem_of_here.
  - by intros [].
Defined.

Lemma compare_body_TypeError_witness :
  exists h,
    compare_body always_A always_BA (VPrim (PNum 1)) sample_x state0
    = (Throw TypeError, State h (console state0)).
Proof.
  apply (compare_body_TypeError always_A always_BA (VPrim (PNum 1)) sample_x
           state0 5 state_x (VArr 2) (heap_of state_x) (VArr 1) (heap_of state_x)).
  - by vm_compute.
  - done.
  - done.
  - left. intros l Hl. inversion Hl. discriminate.
Defined.

Lemma compare_output_witness :
  exists pairs : list (line * line),
    console (snd (compare always_A always_BA [sample_x; sample_y]
                    (VPrim (PNum 0)) state0))
      = console state0 ++ flat_map (fun p => [fst p; snd p]) pairs /\
    length pairs <= 2 /\
    Forall (fun p =>
              (exists i a b, fst p = Divergence i a b) /\
              (snd p = classifier1_correct \/ snd p = classifier2_correct \/
               snd p = both_incorrect)) pairs.
Proof.
  apply (compare_output always_A always_BA [sample_x; sample_y]
           (VPrim (PNum 0)) state0 tt).
  by vm_compute.
Defined.

Lemma test_quiet_witness :
  console (snd (test (R := tally) always_A [sample_x; sample_y] 1 None None state0))
  = [Summary "1/2"].
Proof.
  rewrite (test_quiet (R := tally) always_A [sample_x; sample_y] 1 None None state0)
    by lia.
  by vm_compute.
Defined.

Lemma test_writes_no_array_witness :
  heap_of (snd (test (R := tally) always_BA [sample_x; sample_z] 3 None None state0))
    !! 1%positive = Some [str "B"; str "A"].
Proof.
  by apply (test_writes_no_array (R := tally) always_BA [sample_x; sample_z] 3
              None None state0).
Defined.

Lemma test_microAverage_mirrors_witness :
  exists pooled,
    Some (Tally 2 1) = Some pooled /\ Tally 2 1 = calculateStats pooled.
Proof.
  apply (test_microAverage_mirrors (R := tally) always_A [sample_x; sample_y] 2
           None state0 (Tally 2 1) (Some (Tally 2 1)) None
           (snd (test (R := tally) always_A [sample_x; sample_y] 2
                   (Some newPrecisionRecall) None state0))).
  - lia.
  - by vm_compute.
Defined.

Lemma test_macroSum_merged_witness :
  Some (LObj [("count", LPrim (PNum 12)); ("TRUE", LPrim (PNum 6))])
  = (fun m => hash_add m (fullStats (Tally 2 1))) <$>
      Some (LObj [("count", LPrim (PNum 10)); ("TRUE", LPrim (PNum 5))]).
Proof.
  apply (test_macroSum_merged (R := tally) always_A [sample_x; sample_y] 0 None
           (Some (LObj [("count", LPrim (PNum 10)); ("TRUE", LPrim (PNum 5))]))
           state0 (Tally 2 1) None _
           (snd (test (R := tally) always_A [sample_x; sample_y] 0 None
                   (Some (LObj [("count", LPrim (PNum 10)); ("TRUE", LPrim (PNum 5))]))
                   state0))).
  by vm_compute.
Defined.

Lemma trainAndTest_delegates_witness :
  trainAndTest (R := tally) (fun h => (Ret always_A, h))
    (TrainSet [sample_x] None) [sample_x; sample_y] 1 None None state0
  = test (R := tally) always_A [sample_x; sample_y] 1 None None
      (State heap0 [StartTraining true 1 None; EndTraining 1 None]).
Proof.
  by rewrite (trainAndTest_delegates (R := tally) (fun h => (Ret always_A, h))
                (TrainSet [sample_x] None) [sample_x; sample_y] 1 None None
                state0 always_A heap0 always_A heap0).
Defined.

Lemma trainAndTest_errors_witness :
  trainAndTest (R := tally) (C := broken)
    (fun h => (Throw (Raised (str "no factory")), h))
    (TrainSet [sample_x] None) [sample_x] 1 None None state0
  = (Throw (Raised (str "no factory")), state0) /\
  trainAndTest (R := tally) (fun h => (Ret Broken, h))
    (TrainSet [sample_x] None) [sample_x] 1 None None state0
  = (Throw (Raised (str "cannot train")),
     State heap0 [StartTraining true 1 None]).
Proof.
  split.
  - by apply (trainAndTest_errors (R := tally) (C := broken)
                (fun h => (Throw (Raised (str "no factory")), h))
                (TrainSet [sample_x] None) [sample_x] 1 None None state0).
  - by apply (proj2 (trainAndTest_errors (R := tally)
                       (fun h => (Ret Broken, h))
                       (TrainSet [sample_x] None) [sample_x] 1 None None state0)
                Broken heap0).
Defined.

Lemma trainAndCompare_errors_witness :
  trainAndCompare (C := broken) (C' := broken) (fun h => (Ret Broken, h))
    (fun h => (Throw (Raised (str "no factory")), h))
    (TrainSet [sample_x] None) [sample_x] 1 state0
  = (Throw (Raised (str "no factory")), state0) /\
  trainAndCompare (C := broken) (C' := value -> value -> value)
    (fun h => (Ret Broken, h)) (fun h => (Ret always_A, h))
    (TrainSet [sample_x] None) [sample_x] 1 state0
  = (Throw (Raised (str "cannot train")),
     State heap0 [StartTraining true 1 None]).
Proof.
  split.
  - by apply (trainAndCompare_errors (C := broken) (C' := broken)
                (fun h => (Ret Broken, h))
                (fun h => (Throw (Raised (str "no factory")), h))
                (TrainSet [sample_x] None) [sample_x] 1 state0 Broken heap0).
  - by apply (proj2 (trainAndCompare_errors (C := broken)
                       (C' := value -> value -> value)
                       (fun h => (Ret Broken, h)) (fun h => (Ret always_A, h))
                       (TrainSet [sample_x] None) [sample_x] 1 state0 Broken heap0
                       eq_refl)
                always_A heap0).
Defined.

Lemma compare_same_array_silent_witness :
  exists h,
    compare_body always_A always_A (VPrim (PNum 0)) sample_y state0
      = (Ret tt, State h (console state0)) /\
    elems h 2 = sort (elems (heap_of state_y) 2).
Proof.
  apply (compare_same_array_silent always_A always_A (VPrim (PNum 0)) sample_y
           state0 4 state_y (VArr 2) (heap_of state_y) (VArr 2)).
  - by vm_compute.
  - done.
  - done.
  - by apply unwraps_bare.
  - by apply unwraps_bare.
  - by apply Forall_cons_2; [|apply Forall_nil_2].
Defined.

Lemma testLite_sorts_aliased_output_witness :
  exists stats' h,
    testLite_body (R := tally) always_BA (VPrim (PNum 0)) newPrecisionRecall
      sample_z state0 = (Ret stats', State h (console state0)) /\
    elems h 1 = [str "A"; str "B"].
Proof.
  destruct (testLite_sorts_aliased_output (R := tally) always_BA (VPrim (PNum 0))
              newPrecisionRecall sample_z state0 1 4
              (snd (normalizeClasses (output sample_z) state0)))
    as (stats' & h & Hrun & Hsorted).
  - done.
  - by eexists.
  - by repeat (apply Forall_cons_2; [done|]).
  - by vm_compute.
  - done.
  - exists stats', h. split; [done|]. rewrite Hsorted. by vm_compute.
Defined.

End CoverageWitnesses.

End Properties.
